(** * The Todo server functions of tanstack-start-todo

    A shallow embedding of [src/db/schema.ts] (the [todos] table) and of
    [src/server/todo.ts] (the six server functions), together with the
    part of [src/routes/todos.tsx] that calls [createTodo].

    The table lives in SQLite and is reached through drizzle-orm; both are
    libraries outside the repository.  Their behaviour on the statements
    the server functions issue is written out in the module
    [Persistence]; each definition there says which statement it stands
    for. *)

From Stdlib Require Import ZArith NArith Ascii String List Bool Lia.
From stdpp Require Import gmap list fin_maps sorting.

Local Open Scope Z_scope.

(** ** Data model *)

(** [new Date().toISOString()] yields a fixed-width UTC text
    [YYYY-MM-DDTHH:mm:ss.sssZ]; the columns [created_at] and [updated_at]
    hold that text and SQLite compares it bytewise, which for such texts
    is the order of the instants.  A timestamp is modelled as the instant
    it renders: the milliseconds since the epoch. *)
Definition Timestamp : Type := N.
Bind Scope N_scope with Timestamp.

(** [Todo = typeof todos.$inferSelect]: a selected row. *)
Record Todo : Type := mkTodo {
  id : Z;
  title : string;
  completed : bool;
  createdAt : Timestamp;
  updatedAt : Timestamp
}.

(** A stored row.  [id] is [INTEGER PRIMARY KEY AUTOINCREMENT], an alias
    of the rowid, so it is the key under which the row is stored and the
    record keeps the four remaining columns. *)
Record Row : Type := mkRow {
  col_title : string;
  col_completed : bool;
  col_created_at : Timestamp;
  col_updated_at : Timestamp
}.

(** The database file: the rows of [todos] by rowid, and the entry of
    [sqlite_sequence] for [todos] (the largest rowid ever handed out,
    kept because of [autoIncrement: true]). *)
Record Db : Type := mkDb {
  todos : gmap Z Row;
  sqlite_sequence : Z
}.

Definition empty_db : Db := {| todos := ∅; sqlite_sequence := 0 |}.

Definition to_todo (k : Z) (r : Row) : Todo :=
  {| id := k; title := col_title r; completed := col_completed r;
     createdAt := col_created_at r; updatedAt := col_updated_at r |}.

Definition to_row (t : Todo) : Row :=
  {| col_title := title t; col_completed := completed t;
     col_created_at := createdAt t; col_updated_at := updatedAt t |}.

(** ** Outcomes *)

(** What a server function can throw: the [ZodError] of a schema's
    [parse], and the [Error('No values to set')] of drizzle-orm's
    [mapUpdateSet]. *)
Inductive Error : Type :=
| ZodError
| NoValuesToSet.

(** A call either returns a value or throws. *)
Inductive Result (A : Type) : Type :=
| Ok (a : A)
| Throw (e : Error).
Arguments Ok {A} a.
Arguments Throw {A} e.

(** ** JavaScript strings *)

Module Js.

(** Code units in the Latin-1 range that [String.prototype.trim] strips:
    TAB, LF, VT, FF, CR, SP and NBSP. *)
Definition is_white_space (c : ascii) : bool :=
  let n := N_of_ascii c in
  ((9 <=? n) && (n <=? 13) || (n =? 32) || (n =? 160))%N.

Fixpoint trimStart (s : string) : string :=
  match s with
  | EmptyString => EmptyString
  | String c s' => if is_white_space c then trimStart s' else s
  end.

(** [trimEnd]: a run of white space is dropped when nothing but white
    space follows it. *)
Fixpoint trimEnd (s : string) : string :=
  match s with
  | EmptyString => EmptyString
  | String c s' =>
      match trimEnd s' with
      | EmptyString =>
          if is_white_space c then EmptyString else String c EmptyString
      | rest => String c rest
      end
  end.

Definition trim (s : string) : string := trimEnd (trimStart s).

(** [!s] for a string [s]: true exactly for the empty string. *)
Definition not_string (s : string) : bool :=
  match s with
  | EmptyString => true
  | String _ _ => false
  end.

End Js.

(** ** The persistence layer: drizzle-orm over SQLite *)

Module Persistence.

(** The rowid a plain [INSERT] receives in an AUTOINCREMENT table: one
    more than the largest rowid that ever existed, which SQLite takes as
    the larger of the [sqlite_sequence] entry and the largest rowid now
    in the table. *)
Definition max_rowid (m : gmap Z Row) : Z :=
  map_fold (λ k _ acc, Z.max k acc) 0 m.

Definition next_rowid (db : Db) : Z :=
  Z.max (sqlite_sequence db) (max_rowid (todos db)) + 1.

(** [db.insert(todos).values({ title }).returning()].  drizzle fills the
    columns that got no value, in column order: [completed] from
    [default(false)], [createdAt] from its [$defaultFn], then [updatedAt]
    from its own [$defaultFn].  The two functions each evaluate
    [new Date()], so the insert reads the clock twice: [t_created] is the
    first reading and [t_updated] the second. *)
Definition insert_returning (t_created t_updated : Timestamp)
    (new_title : string) (db : Db) : list Todo * Db :=
  let k := next_rowid db in
  let r := {| col_title := new_title; col_completed := false;
              col_created_at := t_created; col_updated_at := t_updated |} in
  ([to_todo k r], {| todos := <[k := r]> (todos db); sqlite_sequence := k |}).

(** [SELECT * FROM todos], the rows as [Todo] objects. *)
Definition select_all (db : Db) : list Todo :=
  (λ kr, to_todo kr.1 kr.2) <$> map_to_list (todos db).

(** [ORDER BY created_at DESC]: a row goes in front of the first row
    that is not newer than it. *)
Fixpoint insert_desc (t : Todo) (l : list Todo) : list Todo :=
  match l with
  | [] => [t]
  | u :: l' =>
      if (createdAt u <=? createdAt t)%N then t :: u :: l'
      else u :: insert_desc t l'
  end.

Definition orderBy_desc_createdAt (l : list Todo) : list Todo :=
  foldr insert_desc [] l.

(** [db.select().from(todos).where(eq(todos.id, k))]. *)
Definition select_where_id (k : Z) (db : Db) : list Todo :=
  match todos db !! k with
  | Some r => [to_todo k r]
  | None => []
  end.

(** The object handed to [.set(...)].  [updateData] is declared
    [Partial<NewTodo>]; the server functions only ever put [title] and
    [completed] into it, so these are the two keys carried here. *)
Record UpdateSet : Type := mkUpdateSet {
  set_title : option string;
  set_completed : option bool
}.

(** drizzle-orm's [mapUpdateSet], which [.set(values)] runs first: the
    keys whose value is not [undefined] are kept, and with none left it
    throws [Error('No values to set')]. *)
Definition mapUpdateSet (values : UpdateSet) : Result UpdateSet :=
  match set_title values, set_completed values with
  | None, None => Throw NoValuesToSet
  | _, _ => Ok values
  end.

(** The [SET] clause on one row: a column named in [values] takes that
    value; [updated_at], which has an [$onUpdate] function and is never
    named, takes the function's result [now]; the rest is kept. *)
Definition apply_set (values : UpdateSet) (now : Timestamp) (r : Row) : Row :=
  {| col_title := default (col_title r) (set_title values);
     col_completed := default (col_completed r) (set_completed values);
     col_created_at := col_created_at r;
     col_updated_at := now |}.

(** [db.update(todos).set(values).where(eq(todos.id, k)).returning()];
    [now] is the reading of the clock taken by [$onUpdate]. *)
Definition update_where_id_returning (now : Timestamp) (values : UpdateSet)
    (k : Z) (db : Db) : Result (list Todo) * Db :=
  match mapUpdateSet values with
  | Throw e => (Throw e, db)
  | Ok vs =>
      let db' := {| todos := alter (apply_set vs now) k (todos db);
                    sqlite_sequence := sqlite_sequence db |} in
      (Ok (select_where_id k db'), db')
  end.

(** [db.delete(todos).where(eq(todos.id, k))]. *)
Definition delete_where_id (k : Z) (db : Db) : Db :=
  {| todos := delete k (todos db); sqlite_sequence := sqlite_sequence db |}.

(** [db.delete(todos).where(eq(todos.completed, true)).returning()]. *)
Definition delete_where_completed_returning (db : Db) : list Todo * Db :=
  let gone := filter (λ kr : Z * Row, col_completed kr.2 = true) (todos db) in
  let kept := filter (λ kr : Z * Row, col_completed kr.2 = false) (todos db) in
  ((λ kr, to_todo kr.1 kr.2) <$> map_to_list gone,
   {| todos := kept; sqlite_sequence := sqlite_sequence db |}).

End Persistence.

(** ** The server functions of [src/server/todo.ts] *)

Import Persistence.

(** [createServerFn(...).inputValidator(v).handler(h)]: the validator
    runs on the input first; when it throws, the handler is not run. *)
Definition createServerFn {I D O : Type}
    (inputValidator : I → Result D) (handler : D → Db → Result O * Db)
    (input : I) (db : Db) : Result O * Db :=
  match inputValidator input with
  | Throw e => (Throw e, db)
  | Ok data => handler data db
  end.

(** The input of [createTodo], typed [{ title: string }]. *)
Record TitleInput : Type := mkTitleInput { input_title : string }.

(** What [idSchema] parses: an object with a numeric [id].  The number is
    taken integral, so [.int()] always passes. *)
Record IdInput : Type := mkIdInput { input_id : Z }.

(** What [updateTodoSchema] parses; [None] is an absent key. *)
Record UpdateInput : Type := mkUpdateInput {
  update_id : Z;
  update_title : option string;
  update_completed : option bool
}.

(** [{ success: boolean }] and [{ deletedCount: number }]. *)
Record Success : Type := mkSuccess { success : bool }.
Record Deleted : Type := mkDeleted { deletedCount : nat }.

(** [z.string().min(1).max(200)] *)
Definition string_min1_max200 (s : string) : bool :=
  ((1 <=? String.length s) && (String.length s <=? 200))%nat.

(** [updateTodoSchema.parse] *)
Definition updateTodoSchema (input : UpdateInput) : Result UpdateInput :=
  if (0 <? update_id input)
     && from_option string_min1_max200 true (update_title input)
  then Ok input else Throw ZodError.

(** [idSchema.parse] *)
Definition idSchema (input : IdInput) : Result IdInput :=
  if 0 <? input_id input then Ok input else Throw ZodError.

(** [getTodos]: no validator; one [SELECT ... ORDER BY created_at DESC]. *)
Definition getTodos (db : Db) : Result (list Todo) * Db :=
  let result := orderBy_desc_createdAt (select_all db) in
  (Ok result, db).

(** [createTodo].  Its validator is [(input) => input].  [t_created] and
    [t_updated] are the two readings of the clock made by the insert. *)
Definition createTodo (t_created t_updated : Timestamp)
  : TitleInput → Db → Result (option Todo) * Db :=
  createServerFn (λ input, Ok input)
    (λ data db,
       let '(rows, db') :=
         insert_returning t_created t_updated (input_title data) db in
       (Ok (head rows), db')).

(** [updateTodo]; [now] is the reading of the clock made by the update. *)
Definition updateTodo (now : Timestamp)
  : UpdateInput → Db → Result (option Todo) * Db :=
  createServerFn updateTodoSchema
    (λ data db,
       let updateData :=
         {| set_title := update_title data;
            set_completed := update_completed data |} in
       match update_where_id_returning now updateData (update_id data) db with
       | (Throw e, db') => (Throw e, db')
       | (Ok rows, db') => (Ok (head rows), db')
       end).

(** [toggleTodo]: reads the row, returns [null] when there is none,
    otherwise writes the negated flag. *)
Definition toggleTodo (now : Timestamp)
  : IdInput → Db → Result (option Todo) * Db :=
  createServerFn idSchema
    (λ data db,
       match select_where_id (input_id data) db with
       | [] => (Ok None, db)
       | current :: _ =>
           let values :=
             {| set_title := None;
                set_completed := Some (negb (completed current)) |} in
           match update_where_id_returning now values (input_id data) db with
           | (Throw e, db') => (Throw e, db')
           | (Ok rows, db') => (Ok (head rows), db')
           end
       end).

(** [deleteTodo] *)
Definition deleteTodo : IdInput → Db → Result Success * Db :=
  createServerFn idSchema
    (λ data db,
       (Ok {| success := true |}, delete_where_id (input_id data) db)).

(** [deleteCompletedTodos] *)
Definition deleteCompletedTodos (db : Db) : Result Deleted * Db :=
  let '(result, db') := delete_where_completed_returning db in
  (Ok {| deletedCount := length result |}, db').

(** ** The caller of [createTodo] in [src/routes/todos.tsx] *)

(** [handleCreate]: the form's submit handler.  It leaves without a call
    when the trimmed text is empty or a creation is under way, and
    otherwise sends the trimmed text. *)
Definition handleCreate (t_created t_updated : Timestamp)
    (newTodoTitle : string) (isCreating : bool) (db : Db) : Db :=
  if Js.not_string (Js.trim newTodoTitle) || isCreating then db
  else (createTodo t_created t_updated
          {| input_title := Js.trim newTodoTitle |} db).2.

(** ** Runs of the server *)

(** One mutating call, with the readings of the clock it makes. *)
Inductive Call : Type :=
| CallCreate (t_created t_updated : Timestamp) (input : TitleInput)
| CallUpdate (now : Timestamp) (input : UpdateInput)
| CallToggle (now : Timestamp) (input : IdInput)
| CallDelete (input : IdInput)
| CallDeleteCompleted.

Definition exec (c : Call) (db : Db) : Db :=
  match c with
  | CallCreate tc tu input => (createTodo tc tu input db).2
  | CallUpdate now input => (updateTodo now input db).2
  | CallToggle now input => (toggleTodo now input db).2
  | CallDelete input => (deleteTodo input db).2
  | CallDeleteCompleted => (deleteCompletedTodos db).2
  end.

(** The store after the calls, made one after the other from [db]. *)
Definition run (calls : list Call) (db : Db) : Db :=
  foldl (λ d c, exec c d) db calls.

(** The ids the [createTodo] calls of a run returned. *)
Definition created_id (c : Call) (db : Db) : list Z :=
  match c with
  | CallCreate tc tu input =>
      match (createTodo tc tu input db).1 with
      | Ok (Some t) => [id t]
      | _ => []
      end
  | _ => []
  end.

Fixpoint created_ids (calls : list Call) (db : Db) : list Z :=
  match calls with
  | [] => []
  | c :: calls' => created_id c db ++ created_ids calls' (exec c db)
  end.

(** The clock readings of a run, in the order they are made. *)
Definition readings (c : Call) : list Timestamp :=
  match c with
  | CallCreate tc tu _ => [tc; tu]
  | CallUpdate now _ => [now]
  | CallToggle now _ => [now]
  | CallDelete _ => []
  | CallDeleteCompleted => []
  end.

(** A clock that never runs backwards: every reading is at least [from]
    and at least the reading before it. *)
Fixpoint nondecreasing (from : Timestamp) (ts : list Timestamp) : bool :=
  match ts with
  | [] => true
  | t :: ts' => (from <=? t)%N && nondecreasing t ts'
  end.

Definition monotone_clock (calls : list Call) : Prop :=
  nondecreasing 0%N (concat (readings <$> calls)) = true.

(** ** Notions used in the statements *)

(** The row [createTodo] stores for a title. *)
Definition created_row (t_created t_updated : Timestamp) (s : string) : Row :=
  {| col_title := s; col_completed := false;
     col_created_at := t_created; col_updated_at := t_updated |}.

(** The row [toggleTodo] writes in place of [r] at the reading [now]. *)
Definition toggled (now : Timestamp) (r : Row) : Row :=
  {| col_title := col_title r; col_completed := negb (col_completed r);
     col_created_at := col_created_at r; col_updated_at := now |}.

(** [newest_first a b]: [a] may stand before [b] in a list ordered by
    [createdAt] descending. *)
Definition newest_first (a b : Todo) : Prop := (createdAt b ≤ createdAt a)%N.

(** The reading a clock shows last after the readings [ts], when it
    showed [from] before them. *)
Definition latest (from : Timestamp) (ts : list Timestamp) : Timestamp :=
  foldl (λ _ t, t) from ts.

(** Every row was created no later than it was last updated, and last
    updated no later than [b]. *)
Definition stamped_before (b : Timestamp) (db : Db) : Prop :=
  ∀ k r, todos db !! k = Some r →
         (col_created_at r ≤ col_updated_at r ∧ col_updated_at r ≤ b)%N.

(** A store with two rows, the first one completed.  It is what three
    calls leave behind on the empty store. *)
Definition two_todos : Db :=
  run [CallCreate 1000 1001 {| input_title := "A" |};
       CallCreate 1002 1002 {| input_title := "B" |};
       CallToggle 1500 {| input_id := 1 |}] empty_db.

(** The update [{ id: 2, title: "Buy bread" }]. *)
Definition buy_bread : UpdateInput :=
  {| update_id := 2; update_title := Some "Buy bread"%string;
     update_completed := None |}.

Definition row_B : Row :=
  {| col_title := "B"; col_completed := false;
     col_created_at := 1002; col_updated_at := 1002 |}.

(** ** The page of [src/routes/todos.tsx] *)

Module TodoPage.

(** What [TodoPage] holds between two events: the loader data
    ([initialTodos], which the component uses as [todos]) and the three
    pieces of component state. *)
Record State : Type := mkState {
  initialTodos : list Todo;
  newTodoTitle : string;
  isCreating : bool;
  loadingIds : gset Z
}.

Definition setNewTodoTitle (s : string) (p : State) : State :=
  {| initialTodos := initialTodos p; newTodoTitle := s;
     isCreating := isCreating p; loadingIds := loadingIds p |}.

Definition setIsCreating (b : bool) (p : State) : State :=
  {| initialTodos := initialTodos p; newTodoTitle := newTodoTitle p;
     isCreating := b; loadingIds := loadingIds p |}.

(** [setLoadingIds((prev) => f(prev))] *)
Definition setLoadingIds (f : gset Z → gset Z) (p : State) : State :=
  {| initialTodos := initialTodos p; newTodoTitle := newTodoTitle p;
     isCreating := isCreating p; loadingIds := f (loadingIds p) |}.

(** The route's [loader]: one [getTodos] call. *)
Definition loader (db : Db) : Result (list Todo) * Db := getTodos db.

(** [router.invalidate()]: the loader runs again and, when it returns,
    its data replaces the loader data of the page. *)
Definition invalidate (p : State) (db : Db) : Result State * Db :=
  match loader db with
  | (Ok l, db') =>
      (Ok {| initialTodos := l; newTodoTitle := newTodoTitle p;
             isCreating := isCreating p; loadingIds := loadingIds p |}, db')
  | (Throw e, db') => (Throw e, db')
  end.

(** The page as first rendered from the loader data. *)
Definition render (l : list Todo) : State :=
  {| initialTodos := l; newTodoTitle := EmptyString;
     isCreating := false; loadingIds := ∅ |}.

(** [try { await call; await router.invalidate() } catch { log }]: the
    state and store the [try] statement leaves, with whatever the call
    and the reload did before one of them threw. *)
Definition try_call_then_invalidate {A : Type}
    (call : Db → Result A * Db) (p : State) (db : Db) : State * Db :=
  match call db with
  | (Ok _, db1) =>
      match invalidate p db1 with
      | (Ok p', db2) => (p', db2)
      | (Throw _, db2) => (p, db2)
      end
  | (Throw _, db1) => (p, db1)
  end.

(** [handleCreate] on the whole page: the guard, [setIsCreating(true)],
    the call with the trimmed text, [setNewTodoTitle("")] once the call
    has returned, the reload, and [setIsCreating(false)] at the end in
    every case. *)
Definition onSubmit (t_created t_updated : Timestamp)
    (p : State) (db : Db) : State * Db :=
  if Js.not_string (Js.trim (newTodoTitle p)) || isCreating p then (p, db)
  else
    let p1 := setIsCreating true p in
    let '(p2, db2) :=
      match createTodo t_created t_updated
              {| input_title := Js.trim (newTodoTitle p) |} db with
      | (Ok _, db1) =>
          let p1' := setNewTodoTitle EmptyString p1 in
          match invalidate p1' db1 with
          | (Ok p', db') => (p', db')
          | (Throw _, db') => (p1', db')
          end
      | (Throw _, db1) => (p1, db1)
      end in
    (setIsCreating false p2, db2).

(** [handleToggle] *)
Definition handleToggle (now : Timestamp) (todo_id : Z)
    (p : State) (db : Db) : State * Db :=
  let p1 := setLoadingIds (λ prev, prev ∪ {[todo_id]}) p in
  let '(p2, db2) :=
    try_call_then_invalidate
      (toggleTodo now {| input_id := todo_id |}) p1 db in
  (setLoadingIds (λ prev, prev ∖ {[todo_id]}) p2, db2).

(** [handleDelete] *)
Definition handleDelete (todo_id : Z) (p : State) (db : Db) : State * Db :=
  let p1 := setLoadingIds (λ prev, prev ∪ {[todo_id]}) p in
  let '(p2, db2) :=
    try_call_then_invalidate (deleteTodo {| input_id := todo_id |}) p1 db in
  (setLoadingIds (λ prev, prev ∖ {[todo_id]}) p2, db2).

(** [handleDeleteCompleted] *)
Definition handleDeleteCompleted (p : State) (db : Db) : State * Db :=
  try_call_then_invalidate deleteCompletedTodos p db.

(** The two counters of the card title. *)
Definition completedCount (p : State) : nat :=
  length (filter (λ t, completed t = true) (initialTodos p)).

Definition activeCount (p : State) : nat :=
  (length (initialTodos p) - completedCount p)%nat.

(** What the user does: typing into the input ([onChange]), submitting
    the form, and the three buttons; with the clock readings the server
    makes meanwhile. *)
Inductive Event : Type :=
| Change (value : string)
| Submit (t_created t_updated : Timestamp)
| Toggle (now : Timestamp) (todo_id : Z)
| Delete (todo_id : Z)
| ClearCompleted.

Definition handle (e : Event) (s : State * Db) : State * Db :=
  match e with
  | Change value => (setNewTodoTitle value s.1, s.2)
  | Submit tc tu => onSubmit tc tu s.1 s.2
  | Toggle now i => handleToggle now i s.1 s.2
  | Delete i => handleDelete i s.1 s.2
  | ClearCompleted => handleDeleteCompleted s.1 s.2
  end.

(** The page and the store after the events, one handled after the
    other. *)
Definition play (events : list Event) (s : State * Db) : State * Db :=
  foldl (λ s' e, handle e s') s events.

End TodoPage.

(** ** Further notions used in the statements *)

(** Every [createTodo] of the run was given a title that
    [z.string().min(1).max(200)] accepts. *)
Definition creates_within_bounds (calls : list Call) : Prop :=
  forallb (λ c, match c with
                | CallCreate _ _ input =>
                    string_min1_max200 (input_title input)
                | _ => true
                end) calls = true.

(** Every rowid in use is positive and was handed out by the counter. *)
Definition rowids_in_sequence (db : Db) : Prop :=
  0 ≤ sqlite_sequence db
  ∧ ∀ k r, todos db !! k = Some r → 0 < k ≤ sqlite_sequence db.

(** The string is empty or begins with a character that is not white
    space. *)
Definition starts_clean (s : string) : bool :=
  match s with
  | EmptyString => true
  | String c _ => negb (Js.is_white_space c)
  end.

(** The page shows what the store holds: its loader data is what
    [getTodos] returns now. *)
Definition shows_the_store (s : TodoPage.State * Db) : Prop :=
  getTodos s.2 = (Ok (TodoPage.initialTodos s.1), s.2).

(** A session at the page: two Todos are typed in and the first is
    ticked off. *)
Definition page_session : list TodoPage.Event :=
  [TodoPage.Change "  Buy milk ";
   TodoPage.Submit 1000 1001;
   TodoPage.Change "Call Ann";
   TodoPage.Submit 2000 2000;
   TodoPage.Toggle 3000 1].

(** * Properties *)

(** ** The persistence layer *)

Section persistence_facts.
Implicit Types (m : gmap Z Row) (db : Db) (k : Z) (r : Row).

Lemma alter_found (f : Row → Row) m k r :
  m !! k = Some r → alter f k m = <[k := f r]> m.
Proof.
  intros Hk. apply map_eq; intros j.
  destruct (decide (k = j)) as [->|Hne].
  - by rewrite lookup_alter_eq, lookup_insert_eq, Hk.
  - by rewrite lookup_alter_ne, lookup_insert_ne.
Qed.

Lemma alter_missing (f : Row → Row) m k :
  m !! k = None → alter f k m = m.
Proof.
  intros Hk. apply map_eq; intros j.
  destruct (decide (k = j)) as [->|Hne].
  - by rewrite lookup_alter_eq, Hk.
  - by rewrite lookup_alter_ne.
Qed.

Lemma max_rowid_bound m k r : m !! k = Some r → k ≤ max_rowid m.
Proof.
  revert k r. unfold max_rowid.
  apply (map_fold_weak_ind
           (λ acc m', ∀ k r, m' !! k = Some r → k ≤ acc)).
  - intros k r Hk. by rewrite lookup_empty in Hk.
  - intros i x m' acc _ IH k r Hk.
    destruct (decide (i = k)) as [->|Hne].
    + lia.
    + rewrite lookup_insert_ne in Hk by done.
      specialize (IH k r Hk). lia.
Qed.

Lemma next_rowid_above_sequence db : sqlite_sequence db < next_rowid db.
Proof. unfold next_rowid. lia. Qed.

Lemma next_rowid_unused db : todos db !! next_rowid db = None.
Proof.
  destruct (todos db !! next_rowid db) as [r|] eqn:Hk; [|done].
  apply max_rowid_bound in Hk. unfold next_rowid in Hk. lia.
Qed.

Lemma select_where_id_found db k r :
  todos db !! k = Some r → select_where_id k db = [to_todo k r].
Proof. intros Hk. unfold select_where_id. by rewrite Hk. Qed.

Lemma select_where_id_missing db k :
  todos db !! k = None → select_where_id k db = [].
Proof. intros Hk. unfold select_where_id. by rewrite Hk. Qed.

Lemma elem_of_select_all db (t : Todo) :
  t ∈ select_all db ↔ todos db !! id t = Some (to_row t).
Proof.
  unfold select_all. rewrite list_elem_of_fmap. split.
  - intros [[k r] [-> Hin]]. apply elem_of_map_to_list in Hin.
    by destruct r.
  - intros Hk. exists (id t, to_row t). split.
    + by destruct t.
    + by apply elem_of_map_to_list.
Qed.

Lemma length_select_all db : length (select_all db) = size (todos db).
Proof.
  unfold select_all. by rewrite length_fmap, length_map_to_list.
Qed.
End persistence_facts.

(** ** The schemas *)

Lemma idSchema_positive k :
  0 < k → idSchema {| input_id := k |} = Ok {| input_id := k |}.
Proof.
  intros Hpos. unfold idSchema. cbn [input_id].
  by rewrite (proj2 (Z.ltb_lt 0 k) Hpos).
Qed.

(** Runs the validator of a server function called on a positive id. *)
Ltac accept_id Hpos :=
  unfold createServerFn; rewrite (idSchema_positive _ Hpos); cbn [input_id].

(** ** [toggleTodo] *)

Lemma toggleTodo_found now k db r :
  0 < k → todos db !! k = Some r →
  toggleTodo now {| input_id := k |} db =
    (Ok (Some (to_todo k (toggled now r))),
     {| todos := <[k := toggled now r]> (todos db);
        sqlite_sequence := sqlite_sequence db |}).
Proof.
  intros Hpos Hk. unfold toggleTodo. accept_id Hpos.
  rewrite (select_where_id_found _ _ _ Hk).
  unfold update_where_id_returning, mapUpdateSet. cbn [set_title set_completed].
  rewrite (alter_found _ _ _ _ Hk).
  unfold select_where_id. cbn [todos]. by rewrite lookup_insert_eq.
Qed.

(** C5: on a positive id that has no row, [toggleTodo] returns [null],
    raises nothing, and leaves the store as it was: the same rows, hence
    the same number of rows. *)
Theorem toggleTodo_absent_returns_null now k db :
  0 < k → todos db !! k = None →
  toggleTodo now {| input_id := k |} db = (Ok None, db)
  ∧ size (todos (toggleTodo now {| input_id := k |} db).2) = size (todos db).
Proof.
  intros Hpos Hk.
  assert (toggleTodo now {| input_id := k |} db = (Ok None, db)) as ->.
  { unfold toggleTodo. accept_id Hpos.
    by rewrite (select_where_id_missing _ _ Hk). }
  done.
Qed.

Lemma toggleTodo_absent_returns_null_witness :
  toggleTodo 7 {| input_id := 9999 |} empty_db = (Ok None, empty_db)
  ∧ size (todos (toggleTodo 7 {| input_id := 9999 |} empty_db).2)
    = size (todos empty_db).
Proof.
  apply (toggleTodo_absent_returns_null 7 9999 empty_db); [lia | reflexivity].
Defined.

(** C10: on an id that has a row, [toggleTodo] returns that row with
    [completed] negated and [updatedAt] set to the clock reading, its
    [id], [title] and [createdAt] as they were; the store holds the
    returned row under that id and every other row is as before. *)
Theorem toggleTodo_frame now k db r :
  0 < k → todos db !! k = Some r →
  ∃ t db',
    toggleTodo now {| input_id := k |} db = (Ok (Some t), db')
    ∧ completed t = negb (col_completed r)
    ∧ updatedAt t = now
    ∧ id t = k
    ∧ title t = col_title r
    ∧ createdAt t = col_created_at r
    ∧ todos db' !! k = Some (to_row t)
    ∧ (∀ j, j ≠ k → todos db' !! j = todos db !! j)
    ∧ size (todos db') = size (todos db)
    ∧ sqlite_sequence db' = sqlite_sequence db.
Proof.
  intros Hpos Hk. eexists _, _.
  split; [by apply toggleTodo_found|]. simpl.
  repeat split; try done.
  - by rewrite lookup_insert_eq.
  - intros j Hj. by rewrite lookup_insert_ne.
  - rewrite map_size_insert_Some; [done|]. by rewrite Hk.
Qed.

Lemma two_todos_row_B : todos two_todos !! 2 = Some row_B.
Proof. vm_compute. reflexivity. Qed.

Lemma toggleTodo_frame_witness :
  ∃ t db',
    toggleTodo 1600 {| input_id := 2 |} two_todos = (Ok (Some t), db')
    ∧ completed t = negb (col_completed row_B)
    ∧ updatedAt t = 1600%N
    ∧ id t = 2
    ∧ title t = col_title row_B
    ∧ createdAt t = col_created_at row_B
    ∧ todos db' !! 2 = Some (to_row t)
    ∧ (∀ j, j ≠ 2 → todos db' !! j = todos two_todos !! j)
    ∧ size (todos db') = size (todos two_todos)
    ∧ sqlite_sequence db' = sqlite_sequence two_todos.
Proof.
  apply (toggleTodo_frame 1600 2 two_todos row_B);
    [lia | vm_compute; reflexivity].
Defined.

(** C4: two [toggleTodo] calls in a row on an id that has a row both
    return the row; after the second one [completed] is what it was
    before the first, and [updatedAt] is the clock reading of the first
    call after the first and of the second call after the second.  The
    store differs from the one before only in that row's [updatedAt]. *)
Theorem toggleTodo_involution t1 t2 k db r :
  0 < k → todos db !! k = Some r →
  ∃ a db1 b db2,
    toggleTodo t1 {| input_id := k |} db = (Ok (Some a), db1)
    ∧ toggleTodo t2 {| input_id := k |} db1 = (Ok (Some b), db2)
    ∧ completed a = negb (col_completed r)
    ∧ completed b = col_completed r
    ∧ updatedAt a = t1
    ∧ col_updated_at <$> todos db1 !! k = Some t1
    ∧ updatedAt b = t2
    ∧ col_updated_at <$> todos db2 !! k = Some t2
    ∧ col_completed <$> todos db2 !! k = Some (col_completed r)
    ∧ todos db2 =
        <[k := {| col_title := col_title r; col_completed := col_completed r;
                  col_created_at := col_created_at r;
                  col_updated_at := t2 |}]> (todos db).
Proof.
  intros Hpos Hk.
  pose proof (toggleTodo_found t1 k db r Hpos Hk) as H1.
  set (db1 := {| todos := <[k := toggled t1 r]> (todos db);
                 sqlite_sequence := sqlite_sequence db |}) in *.
  assert (todos db1 !! k = Some (toggled t1 r)) as Hk1
    by apply lookup_insert_eq.
  pose proof (toggleTodo_found t2 k db1 _ Hpos Hk1) as H2.
  eexists _, db1, _, _. split; [exact H1|]. split; [exact H2|].
  cbn [completed updatedAt to_todo toggled col_completed col_updated_at todos].
  rewrite negb_involutive.
  repeat split; try done.
  - by rewrite Hk1.
  - by rewrite lookup_insert_eq.
  - rewrite lookup_insert_eq. cbn. by rewrite negb_involutive.
  - subst db1. cbn [todos]. rewrite insert_insert_eq.
    unfold toggled. cbn. by rewrite negb_involutive.
Qed.

Lemma toggleTodo_involution_witness :
  ∃ a db1 b db2,
    toggleTodo 1600 {| input_id := 2 |} two_todos = (Ok (Some a), db1)
    ∧ toggleTodo 1700 {| input_id := 2 |} db1 = (Ok (Some b), db2)
    ∧ completed a = negb (col_completed row_B)
    ∧ completed b = col_completed row_B
    ∧ updatedAt a = 1600%N
    ∧ col_updated_at <$> todos db1 !! 2 = Some 1600%N
    ∧ updatedAt b = 1700%N
    ∧ col_updated_at <$> todos db2 !! 2 = Some 1700%N
    ∧ col_completed <$> todos db2 !! 2 = Some (col_completed row_B)
    ∧ todos db2 =
        <[2 := {| col_title := col_title row_B;
                  col_completed := col_completed row_B;
                  col_created_at := col_created_at row_B;
                  col_updated_at := 1700 |}]> (todos two_todos).
Proof.
  apply (toggleTodo_involution 1600 1700 2 two_todos row_B);
    [lia | vm_compute; reflexivity].
Defined.

(** ** [deleteTodo] *)

Lemma deleteTodo_valid k db :
  0 < k →
  deleteTodo {| input_id := k |} db =
    (Ok {| success := true |}, delete_where_id k db).
Proof.
  intros Hpos. unfold deleteTodo. by accept_id Hpos.
Qed.

(** C8: for a positive id, [deleteTodo] acknowledges success whether or
    not the id has a row; repeated on the same id it acknowledges success
    again and leaves the store exactly as the first call left it.  The
    first call removes that id's row and no other; on an id without a
    row it changes nothing. *)
Theorem deleteTodo_idempotent k db :
  0 < k →
  ∃ db1,
    deleteTodo {| input_id := k |} db = (Ok {| success := true |}, db1)
    ∧ deleteTodo {| input_id := k |} db1 = (Ok {| success := true |}, db1)
    ∧ todos db1 !! k = None
    ∧ (∀ j, j ≠ k → todos db1 !! j = todos db !! j)
    ∧ (todos db !! k = None → db1 = db).
Proof.
  intros Hpos. exists (delete_where_id k db).
  rewrite !deleteTodo_valid by done.
  unfold delete_where_id. cbn [todos sqlite_sequence].
  rewrite delete_delete_eq. repeat split.
  - apply lookup_delete_eq.
  - intros j Hj. by apply lookup_delete_ne.
  - intros Hk. destruct db as [m s]. cbn in *. by rewrite delete_id.
Qed.

Lemma deleteTodo_idempotent_witness :
  ∃ db1,
    deleteTodo {| input_id := 1 |} two_todos = (Ok {| success := true |}, db1)
    ∧ deleteTodo {| input_id := 1 |} db1 = (Ok {| success := true |}, db1)
    ∧ todos db1 !! 1 = None
    ∧ (∀ j, j ≠ 1 → todos db1 !! j = todos two_todos !! j)
    ∧ (todos two_todos !! 1 = None → db1 = two_todos).
Proof. apply (deleteTodo_idempotent 1 two_todos). lia. Defined.

(** ** [getTodos] *)

Section order_by.
Implicit Types (t u : Todo) (l : list Todo).

Lemma insert_desc_perm t l : insert_desc t l ≡ₚ t :: l.
Proof.
  induction l as [|u l IH]; [done|]. cbn.
  destruct (createdAt u <=? createdAt t)%N; [done|].
  rewrite IH. apply Permutation_swap.
Qed.

Lemma orderBy_desc_createdAt_perm l : orderBy_desc_createdAt l ≡ₚ l.
Proof.
  induction l as [|t l IH]; [done|]. cbn.
  by rewrite insert_desc_perm, IH.
Qed.

Lemma insert_desc_sorted t l :
  StronglySorted newest_first l →
  StronglySorted newest_first (insert_desc t l).
Proof.
  induction 1 as [|u l Hl IH Hu]; cbn.
  - repeat constructor.
  - destruct (createdAt u <=? createdAt t)%N eqn:Hcmp.
    + apply N.leb_le in Hcmp.
      constructor; [by constructor|].
      constructor; [exact Hcmp|].
      eapply Forall_impl; [exact Hu|].
      intros x Hx. unfold newest_first in *. lia.
    + apply N.leb_gt in Hcmp.
      constructor; [exact IH|].
      rewrite insert_desc_perm. constructor; [|exact Hu].
      unfold newest_first. lia.
Qed.

Lemma orderBy_desc_createdAt_sorted l :
  StronglySorted newest_first (orderBy_desc_createdAt l).
Proof.
  induction l as [|t l IH]; cbn; [constructor|].
  by apply insert_desc_sorted.
Qed.
End order_by.

Lemma elem_of_getTodos db l t :
  getTodos db = (Ok l, db) →
  t ∈ l ↔ todos db !! id t = Some (to_row t).
Proof.
  unfold getTodos. intros [= <-].
  by rewrite orderBy_desc_createdAt_perm, elem_of_select_all.
Qed.

(** C7: [getTodos] does not throw and does not change the store; what it
    returns is the stored rows, each once, ordered by [createdAt]
    descending: every element is at least as new as all elements after
    it.  On a store without rows it returns the empty list. *)
Theorem getTodos_newest_first db :
  ∃ l,
    getTodos db = (Ok l, db)
    ∧ StronglySorted newest_first l
    ∧ l ≡ₚ select_all db
    ∧ (∀ t, t ∈ l ↔ todos db !! id t = Some (to_row t))
    ∧ NoDup l
    ∧ length l = size (todos db)
    ∧ (todos db = ∅ → l = []).
Proof.
  exists (orderBy_desc_createdAt (select_all db)).
  split; [done|].
  split; [apply orderBy_desc_createdAt_sorted|].
  split; [apply orderBy_desc_createdAt_perm|].
  split; [intros t; by apply elem_of_getTodos|].
  split.
  - rewrite orderBy_desc_createdAt_perm. unfold select_all.
    apply NoDup_fmap_2_strong; [|apply NoDup_map_to_list].
    intros [k1 r1] [k2 r2] _ _ Heq. cbn in Heq.
    destruct r1, r2. by injection Heq as -> -> -> -> ->.
  - split.
    + by rewrite orderBy_desc_createdAt_perm, length_select_all.
    + intros Hempty. unfold select_all.
      by rewrite Hempty, map_to_list_empty.
Qed.

(** ** [deleteCompletedTodos] *)

Lemma size_completed_split (m : gmap Z Row) :
  size m =
    (size (filter (λ kr : Z * Row, col_completed kr.2 = true) m)
     + size (filter (λ kr : Z * Row, col_completed kr.2 = false) m))%nat.
Proof.
  rewrite <- (map_filter_union_complement
                (λ kr : Z * Row, col_completed kr.2 = true) m) at 1.
  rewrite map_size_disj_union by apply map_disjoint_filter_complement.
  f_equal. f_equal. apply map_filter_ext.
  intros k r _. cbn. by destruct (col_completed r).
Qed.

(** C3: [deleteCompletedTodos] removes the rows that are completed when
    it is called and no others: a row is in the store afterwards exactly
    when it was there before with [completed = false], and then it is
    unchanged.  The count it returns is the number of completed rows,
    which is the number of rows by which the store shrinks.  A [getTodos]
    made next returns no completed row and no row under the id of a
    removed one. *)
Theorem deleteCompletedTodos_exact db :
  ∃ n db' l',
    deleteCompletedTodos db = (Ok {| deletedCount := n |}, db')
    ∧ (∀ k r, todos db' !! k = Some r
              ↔ todos db !! k = Some r ∧ col_completed r = false)
    ∧ n = size (filter (λ kr : Z * Row, col_completed kr.2 = true)
                  (todos db))
    ∧ size (todos db) = (n + size (todos db'))%nat
    ∧ getTodos db' = (Ok l', db')
    ∧ (∀ t, t ∈ l' → completed t = false)
    ∧ (∀ k r, todos db !! k = Some r → col_completed r = true →
              ∀ t, t ∈ l' → id t ≠ k).
Proof.
  set (db' := (delete_where_completed_returning db).2).
  set (l' := orderBy_desc_createdAt (select_all db')).
  assert (getTodos db' = (Ok l', db')) as Hlist by reflexivity.
  clearbody l'. eexists _, db', l'. split; [reflexivity|].
  subst db'. cbn [snd delete_where_completed_returning todos] in *.
  assert (∀ k r,
    filter (λ kr : Z * Row, col_completed kr.2 = false) (todos db) !! k
    = Some r
    ↔ todos db !! k = Some r ∧ col_completed r = false) as Hkept.
  { intros k r. by rewrite map_lookup_filter_Some. }
  assert (∀ t, t ∈ l' → todos db !! id t = Some (to_row t)
                        ∧ completed t = false) as Hin.
  { intros t Ht. rewrite (elem_of_getTodos _ _ _ Hlist) in Ht.
    cbn [todos] in Ht. apply Hkept in Ht. by destruct t. }
  split; [exact Hkept|].
  split; [by rewrite length_fmap, length_map_to_list|].
  split; [rewrite length_fmap, length_map_to_list; apply size_completed_split|].
  split; [exact Hlist|].
  split; [intros t Ht; by apply Hin|].
  intros k r Hk Hdone t Ht <-.
  destruct (Hin t Ht) as [Hrow Hfalse].
  rewrite Hk in Hrow. injection Hrow as ->.
  destruct t; cbn in *. congruence.
Qed.

(** ** [createTodo] and [updateTodo], equationally *)

Lemma createTodo_inserts tc tu input db :
  createTodo tc tu input db =
    (Ok (Some (to_todo (next_rowid db)
                 (created_row tc tu (input_title input)))),
     {| todos := <[next_rowid db := created_row tc tu (input_title input)]>
                   (todos db);
        sqlite_sequence := next_rowid db |}).
Proof. reflexivity. Qed.

Lemma updateTodoSchema_Ok input :
  updateTodoSchema input = Ok input
  ↔ 0 < update_id input
    ∧ ∀ s, update_title input = Some s →
           (1 ≤ String.length s ≤ 200)%nat.
Proof.
  unfold updateTodoSchema, string_min1_max200.
  destruct (Z.ltb_spec 0 (update_id input)) as [Hpos|Hneg]; cbn [andb].
  - destruct (update_title input) as [s|]; cbn [from_option].
    + destruct ((1 <=? String.length s)%nat && (String.length s <=? 200)%nat)
        eqn:Hlen.
      * apply andb_true_iff in Hlen as [H1 H2].
        apply Nat.leb_le in H1, H2.
        split; [|done]. intros _. split; [done|]. intros s0 [= <-]. lia.
      * split; [discriminate|]. intros [_ Hs]. specialize (Hs s eq_refl).
        apply andb_false_iff in Hlen as [H|H]; apply Nat.leb_gt in H; lia.
    + split; [|done]. intros _. split; [done|]. by intros s.
  - split; [discriminate|]. intros [? _]. lia.
Qed.

Lemma updateTodo_no_values now input db :
  updateTodoSchema input = Ok input →
  update_title input = None → update_completed input = None →
  updateTodo now input db = (Throw NoValuesToSet, db).
Proof.
  intros Hvalid Ht Hc. unfold updateTodo, createServerFn. rewrite Hvalid.
  unfold update_where_id_returning, mapUpdateSet. cbn. by rewrite Ht, Hc.
Qed.

Lemma updateTodo_some_values now input db :
  updateTodoSchema input = Ok input →
  ¬ (update_title input = None ∧ update_completed input = None) →
  let values := {| set_title := update_title input;
                   set_completed := update_completed input |} in
  let db' := {| todos := alter (apply_set values now) (update_id input)
                           (todos db);
                sqlite_sequence := sqlite_sequence db |} in
  updateTodo now input db =
    (Ok (head (select_where_id (update_id input) db')), db').
Proof.
  intros Hvalid Hsome. unfold updateTodo, createServerFn. rewrite Hvalid.
  unfold update_where_id_returning, mapUpdateSet. cbn.
  destruct (update_title input), (update_completed input); try done.
  by destruct Hsome.
Qed.

(** ** Runs: what every call preserves *)

Section runs.
Implicit Types (c : Call) (calls : list Call) (db : Db) (b : Timestamp).

Lemma run_cons c calls db : run (c :: calls) db = run calls (exec c db).
Proof. reflexivity. Qed.

Lemma run_app calls1 calls2 db :
  run (calls1 ++ calls2) db = run calls2 (run calls1 db).
Proof. unfold run. by rewrite foldl_app. Qed.

(** What a call can do to a stored row: each row found afterwards is
    new, rewritten by an update, or as it was. *)
Lemma updateTodo_rows now input db k r :
  todos (updateTodo now input db).2 !! k = Some r →
  todos db !! k = Some r
  ∨ ∃ r0 values, todos db !! k = Some r0 ∧ r = apply_set values now r0.
Proof.
  unfold updateTodo, createServerFn.
  destruct (updateTodoSchema input) as [data|e]; [|by left].
  unfold update_where_id_returning.
  destruct (mapUpdateSet _) as [vs|e]; [|by left].
  cbn [snd todos]. intros Hk.
  destruct (decide (update_id data = k)) as [<-|Hne].
  - rewrite lookup_alter_eq in Hk.
    destruct (todos db !! update_id data) as [r0|] eqn:H0; [|done].
    right. exists r0, vs. split; [done|]. cbn in Hk. congruence.
  - rewrite lookup_alter_ne in Hk by done. by left.
Qed.

Lemma toggleTodo_rows now input db k r :
  todos (toggleTodo now input db).2 !! k = Some r →
  todos db !! k = Some r
  ∨ ∃ r0 values, todos db !! k = Some r0 ∧ r = apply_set values now r0.
Proof.
  unfold toggleTodo, createServerFn.
  destruct (idSchema input) as [data|e]; [|by left].
  destruct (select_where_id (input_id data) db) as [|current ?]; [by left|].
  unfold update_where_id_returning, mapUpdateSet.
  cbn [set_title set_completed snd todos]. intros Hk.
  destruct (decide (input_id data = k)) as [<-|Hne].
  - rewrite lookup_alter_eq in Hk.
    destruct (todos db !! input_id data) as [r0|] eqn:H0; [|done].
    right. eexists r0, _. split; [done|]. cbn in Hk.
    injection Hk as <-. reflexivity.
  - rewrite lookup_alter_ne in Hk by done. by left.
Qed.

Lemma deleteTodo_rows input db k r :
  todos (deleteTodo input db).2 !! k = Some r → todos db !! k = Some r.
Proof.
  unfold deleteTodo, createServerFn.
  destruct (idSchema input) as [data|e]; [|done].
  cbn [snd delete_where_id todos]. intros Hk.
  apply lookup_delete_Some in Hk. by destruct Hk.
Qed.

Lemma deleteCompletedTodos_rows db k r :
  todos (deleteCompletedTodos db).2 !! k = Some r → todos db !! k = Some r.
Proof.
  cbn [deleteCompletedTodos delete_where_completed_returning snd todos].
  intros Hk. apply map_lookup_filter_Some in Hk. by destruct Hk.
Qed.

(** The AUTOINCREMENT counter never goes down. *)
Lemma exec_sequence_mono c db :
  sqlite_sequence db ≤ sqlite_sequence (exec c db).
Proof.
  destruct c as [tc tu input|now input|now input|input|]; cbn [exec].
  - rewrite createTodo_inserts. cbn.
    pose proof (next_rowid_above_sequence db). lia.
  - unfold updateTodo, createServerFn.
    destruct (updateTodoSchema input) as [data|e]; [|done].
    unfold update_where_id_returning.
    by destruct (mapUpdateSet _).
  - unfold toggleTodo, createServerFn.
    destruct (idSchema input) as [data|e]; [|done].
    destruct (select_where_id _ _); [done|].
    unfold update_where_id_returning.
    by destruct (mapUpdateSet _).
  - unfold deleteTodo, createServerFn.
    by destruct (idSchema input).
  - done.
Qed.

Lemma run_sequence_mono calls db :
  sqlite_sequence db ≤ sqlite_sequence (run calls db).
Proof.
  revert db. induction calls as [|c calls IH]; intros db; [done|].
  rewrite run_cons. pose proof (exec_sequence_mono c db).
  specialize (IH (exec c db)). lia.
Qed.

Lemma created_ids_bound calls db :
  Forall (λ i, i ≤ sqlite_sequence (run calls db)) (created_ids calls db).
Proof.
  revert db. induction calls as [|c calls IH]; intros db; [constructor|].
  cbn [created_ids]. rewrite run_cons. apply Forall_app. split; [|apply IH].
  pose proof (run_sequence_mono calls (exec c db)) as Hmono.
  destruct c as [tc tu input| | | |]; cbn [created_id]; try constructor.
  - cbn [exec] in Hmono. rewrite createTodo_inserts in Hmono.
    cbn [snd sqlite_sequence] in Hmono. exact Hmono.
  - constructor.
Qed.
End runs.

(** ** The timestamps of a row *)

Section timestamps.
Implicit Types (c : Call) (calls : list Call) (db : Db) (b : Timestamp).

Lemma nondecreasing_app b ts1 ts2 :
  nondecreasing b (ts1 ++ ts2)
  = nondecreasing b ts1 && nondecreasing (latest b ts1) ts2.
Proof.
  revert b. induction ts1 as [|t ts1 IH]; intros b; [done|].
  cbn. by rewrite IH, andb_assoc.
Qed.

Lemma nondecreasing_latest b ts :
  nondecreasing b ts = true → (b ≤ latest b ts)%N.
Proof.
  revert b. induction ts as [|t ts IH]; intros b; cbn; [lia|].
  intros [Hbt Hts]%andb_true_iff. apply N.leb_le in Hbt.
  specialize (IH t Hts). unfold latest in IH. lia.
Qed.

Lemma stamped_before_later b b' db :
  (b ≤ b')%N → stamped_before b db → stamped_before b' db.
Proof. intros Hb Hdb k r Hk. specialize (Hdb k r Hk). lia. Qed.

Lemma stamped_before_set b now db k r r0 values :
  stamped_before b db → (b ≤ now)%N →
  todos db !! k = Some r0 → r = apply_set values now r0 →
  (col_created_at r ≤ col_updated_at r ∧ col_updated_at r ≤ now)%N.
Proof.
  intros Hdb Hnow Hk ->. specialize (Hdb k r0 Hk). cbn. lia.
Qed.

Lemma exec_stamped c db b :
  stamped_before b db → nondecreasing b (readings c) = true →
  stamped_before (latest b (readings c)) (exec c db).
Proof.
  intros Hdb Hclock.
  destruct c as [tc tu input|now input|now input|input|];
    cbn [exec readings latest foldl nondecreasing] in *.
  - apply andb_true_iff in Hclock as [Hb Hclock].
    rewrite andb_true_r in Hclock. apply N.leb_le in Hb, Hclock.
    rewrite createTodo_inserts. intros k r Hk. cbn [snd todos] in Hk.
    destruct (decide (next_rowid db = k)) as [<-|Hne].
    + rewrite lookup_insert_eq in Hk. injection Hk as <-. cbn. lia.
    + rewrite lookup_insert_ne in Hk by done.
      specialize (Hdb k r Hk). lia.
  - rewrite andb_true_r in Hclock. apply N.leb_le in Hclock.
    intros k r Hk.
    destruct (updateTodo_rows _ _ _ _ _ Hk) as [Hold|(r0 & vs & H0 & Hr)].
    + specialize (Hdb k r Hold). lia.
    + by eapply stamped_before_set.
  - rewrite andb_true_r in Hclock. apply N.leb_le in Hclock.
    intros k r Hk.
    destruct (toggleTodo_rows _ _ _ _ _ Hk) as [Hold|(r0 & vs & H0 & Hr)].
    + specialize (Hdb k r Hold). lia.
    + by eapply stamped_before_set.
  - intros k r Hk. apply deleteTodo_rows in Hk. exact (Hdb k r Hk).
  - intros k r Hk. apply deleteCompletedTodos_rows in Hk.
    exact (Hdb k r Hk).
Qed.

Lemma run_stamped calls db b :
  stamped_before b db →
  nondecreasing b (concat (readings <$> calls)) = true →
  stamped_before (latest b (concat (readings <$> calls))) (run calls db).
Proof.
  revert db b. induction calls as [|c calls IH]; intros db b Hdb Hclock;
    [done|].
  rewrite run_cons. cbn [fmap list_fmap concat] in *.
  rewrite nondecreasing_app in Hclock.
  apply andb_true_iff in Hclock as [Hc Hrest].
  unfold latest. rewrite foldl_app. apply IH; [|done].
  by apply exec_stamped.
Qed.

Lemma monotone_clock_take calls n :
  monotone_clock calls → monotone_clock (take n calls).
Proof.
  unfold monotone_clock. rewrite <- (take_drop n calls) at 1.
  rewrite fmap_app, concat_app, nondecreasing_app.
  by intros [? _]%andb_true_iff.
Qed.
End timestamps.

(** C9, as the code has it: the timestamps are readings of the wall
    clock, and the order holds as far as the clock does.  In a run of
    calls made from the empty store with a clock whose readings never go
    back, every row of the store has [createdAt <= updatedAt] after each
    call: the store reached after the first [n] calls satisfies it, for
    every [n]. *)
Theorem updatedAt_never_before_createdAt calls n :
  monotone_clock calls →
  ∀ k r, todos (run (take n calls) empty_db) !! k = Some r →
         (col_created_at r ≤ col_updated_at r)%N.
Proof.
  intros Hclock k r Hk.
  apply (monotone_clock_take _ n) in Hclock.
  assert (stamped_before 0 empty_db) as Hempty.
  { intros j x Hj. cbn in Hj. by rewrite lookup_empty in Hj. }
  by destruct (run_stamped _ _ _ Hempty Hclock k r Hk).
Qed.

Lemma updatedAt_never_before_createdAt_witness :
  monotone_clock [CallCreate 1000 1001 {| input_title := "A" |};
                  CallToggle 1500 {| input_id := 1 |};
                  CallDeleteCompleted]
  ∧ todos (run (take 2 [CallCreate 1000 1001 {| input_title := "A" |};
                        CallToggle 1500 {| input_id := 1 |};
                        CallDeleteCompleted]) empty_db) !! 1
    = Some {| col_title := "A"; col_completed := true;
              col_created_at := 1000; col_updated_at := 1500 |}
  ∧ (1000 ≤ 1500)%N.
Proof.
  split; [reflexivity|]. split; [vm_compute; reflexivity|].
  apply (updatedAt_never_before_createdAt
           [CallCreate 1000 1001 {| input_title := "A" |};
            CallToggle 1500 {| input_id := 1 |};
            CallDeleteCompleted] 2 eq_refl 1
           {| col_title := "A"; col_completed := true;
              col_created_at := 1000; col_updated_at := 1500 |}).
  vm_compute. reflexivity.
Defined.

(** C9, as stated, fails: [new Date()] is the wall clock.  When it is
    set back between a creation (both readings 1000) and a toggle
    (reading 500), the run from the empty store leaves row 1 with
    [createdAt = 1000] and [updatedAt = 500], so not every row has
    [updatedAt >= createdAt]. *)
Lemma updatedAt_before_createdAt_after_clock_set_back :
  todos (run [CallCreate 1000 1000 {| input_title := "A" |};
              CallToggle 500 {| input_id := 1 |}] empty_db) !! 1
  = Some {| col_title := "A"; col_completed := true;
            col_created_at := 1000; col_updated_at := 500 |}
  ∧ ¬ (∀ k r,
         todos (run [CallCreate 1000 1000 {| input_title := "A" |};
                     CallToggle 500 {| input_id := 1 |}] empty_db) !! k
         = Some r →
         (col_created_at r ≤ col_updated_at r)%N).
Proof.
  assert (todos (run [CallCreate 1000 1000 {| input_title := "A" |};
                      CallToggle 500 {| input_id := 1 |}] empty_db) !! 1
          = Some {| col_title := "A"; col_completed := true;
                    col_created_at := 1000; col_updated_at := 500 |})
    as Hrow by (vm_compute; reflexivity).
  split; [exact Hrow|].
  intros Hall. specialize (Hall 1 _ Hrow). cbn in Hall. lia.
Qed.

(** ** [createTodo] *)

(** C2, as the code has it: for a title of 1 to 200 characters after
    trimming, [createTodo] returns a Todo with [completed = false] and
    the title as given; [createdAt] and [updatedAt] are the two clock
    readings of the insert, one after the other, so
    [createdAt <= updatedAt] on a clock that does not go back, and they
    are equal only when the two readings are.  The id is fresh: no
    earlier [createTodo] of the run returned it and no row has it. *)
Theorem createTodo_valid_title calls tc tu s :
  (1 ≤ String.length (Js.trim s) ≤ 200)%nat → (tc ≤ tu)%N →
  ∃ t db',
    createTodo tc tu {| input_title := s |} (run calls empty_db)
      = (Ok (Some t), db')
    ∧ completed t = false
    ∧ title t = s
    ∧ createdAt t = tc
    ∧ updatedAt t = tu
    ∧ (createdAt t ≤ updatedAt t)%N
    ∧ (id t ∉ created_ids calls empty_db)
    ∧ todos (run calls empty_db) !! id t = None
    ∧ todos db' !! id t = Some (to_row t).
Proof.
  intros _ Hclock. eexists _, _. split; [apply createTodo_inserts|].
  cbn [completed title createdAt updatedAt id to_todo created_row
       col_title col_completed col_created_at col_updated_at todos].
  repeat split; try done.
  - intros Hin.
    pose proof (created_ids_bound calls empty_db) as Hbound.
    rewrite Forall_forall in Hbound. specialize (Hbound _ Hin).
    pose proof (next_rowid_above_sequence (run calls empty_db)). lia.
  - apply next_rowid_unused.
  - by rewrite lookup_insert_eq.
Qed.

Lemma createTodo_valid_title_witness :
  ∃ t db',
    createTodo 2000 2003 {| input_title := "Buy milk" |}
      (run [CallCreate 1000 1001 {| input_title := "A" |};
            CallDelete {| input_id := 1 |}] empty_db)
      = (Ok (Some t), db')
    ∧ completed t = false
    ∧ title t = "Buy milk"%string
    ∧ createdAt t = 2000%N
    ∧ updatedAt t = 2003%N
    ∧ (createdAt t ≤ updatedAt t)%N
    ∧ (id t ∉ created_ids [CallCreate 1000 1001 {| input_title := "A" |};
                           CallDelete {| input_id := 1 |}] empty_db)
    ∧ todos (run [CallCreate 1000 1001 {| input_title := "A" |};
                  CallDelete {| input_id := 1 |}] empty_db) !! id t = None
    ∧ todos db' !! id t = Some (to_row t).
Proof.
  apply (createTodo_valid_title
           [CallCreate 1000 1001 {| input_title := "A" |};
            CallDelete {| input_id := 1 |}] 2000 2003 "Buy milk");
    [vm_compute; lia | lia].
Defined.

(** C2, as stated, fails: the insert reads the clock once for
    [createdAt] and once more for [updatedAt]; when a millisecond passes
    in between, the Todo returned for the valid title ["A"] has
    [createdAt = 1000] and [updatedAt = 1001]. *)
Lemma createTodo_createdAt_differs_from_updatedAt :
  (1 ≤ String.length (Js.trim "A") ≤ 200)%nat
  ∧ (createTodo 1000 1001 {| input_title := "A" |} empty_db).1
    = Ok (Some {| id := 1; title := "A"; completed := false;
                  createdAt := 1000; updatedAt := 1001 |})
  ∧ createdAt {| id := 1; title := "A"; completed := false;
                 createdAt := 1000; updatedAt := 1001 |}
    ≠ updatedAt {| id := 1; title := "A"; completed := false;
                   createdAt := 1000; updatedAt := 1001 |}.
Proof. split; [vm_compute; lia|]. split; [vm_compute; reflexivity|]. done. Qed.

(** C1, as the code has it: the server function does no trimming.  A
    title of 1 to 200 characters that consists of white space only, hence
    is empty after trimming, raises nothing: it is stored as given and
    the store gains one row. *)
Theorem createTodo_blank_title_stored tc tu s db :
  Js.trim s = EmptyString → (1 ≤ String.length s ≤ 200)%nat →
  ∃ t db',
    createTodo tc tu {| input_title := s |} db = (Ok (Some t), db')
    ∧ title t = s
    ∧ todos db' !! id t = Some (to_row t)
    ∧ size (todos db') = S (size (todos db)).
Proof.
  intros _ _. eexists _, _. split; [apply createTodo_inserts|].
  cbn [title id to_todo todos]. repeat split.
  - by rewrite lookup_insert_eq.
  - apply map_size_insert_None, next_rowid_unused.
Qed.

Lemma createTodo_blank_title_stored_witness :
  ∃ t db',
    createTodo 3000 3000 {| input_title := "   " |} two_todos
      = (Ok (Some t), db')
    ∧ title t = "   "%string
    ∧ todos db' !! id t = Some (to_row t)
    ∧ size (todos db') = S (size (todos two_todos)).
Proof.
  apply (createTodo_blank_title_stored 3000 3000 "   " two_todos);
    [reflexivity | vm_compute; lia].
Defined.

(** C1, as stated, fails: the title [" "] is empty after trimming, yet
    [createTodo] returns a Todo and the empty store has one row
    afterwards. *)
Lemma createTodo_blank_title_not_rejected :
  Js.trim " "%string = EmptyString
  ∧ (createTodo 1000 1000 {| input_title := " " |} empty_db).1
    = Ok (Some {| id := 1; title := " "; completed := false;
                  createdAt := 1000; updatedAt := 1000 |})
  ∧ size (todos (createTodo 1000 1000 {| input_title := " " |} empty_db).2)
    = 1%nat
  ∧ size (todos empty_db) = 0%nat.
Proof. repeat split; vm_compute; reflexivity. Qed.

(** [createTodo] checks nothing about the title: its validator is the
    identity, so also the empty title and a title of 201 characters are
    inserted.  The repository's notes show it with
    [z.string().min(1).max(200)], the check [updateTodo] makes. *)
Lemma createTodo_never_throws tc tu input db :
  ∃ t db', createTodo tc tu input db = (Ok (Some t), db')
           ∧ title t = input_title input
           ∧ size (todos db') = S (size (todos db)).
Proof.
  eexists _, _. split; [apply createTodo_inserts|]. split; [done|].
  apply map_size_insert_None, next_rowid_unused.
Qed.

Example createTodo_empty_title_inserted :
  (createTodo 1000 1000 {| input_title := "" |} empty_db).1
  = Ok (Some {| id := 1; title := ""; completed := false;
                createdAt := 1000; updatedAt := 1000 |}).
Proof. vm_compute. reflexivity. Qed.

(** The page never sends a blank title: [handleCreate] trims the text
    and makes no call when nothing is left. *)
Lemma handleCreate_blank tc tu s isCreating db :
  Js.trim s = EmptyString → handleCreate tc tu s isCreating db = db.
Proof. intros Hs. unfold handleCreate. by rewrite Hs. Qed.

(** ** [updateTodo] *)

(** X20: what [updateTodo] does on an input that [updateTodoSchema]
    accepts.  When the input supplies [title] or [completed] (or both):
    [null] and no change when the id has no row; when it has one, the
    supplied fields replace the row's, [updatedAt] becomes the clock
    reading, [id], [createdAt] and the fields not supplied stay, and no
    other row changes.  When it supplies neither, [.set({})] throws
    [No values to set] and the store is as before. *)
Theorem updateTodo_partial now input db :
  updateTodoSchema input = Ok input →
  (update_title input = None ∧ update_completed input = None →
   updateTodo now input db = (Throw NoValuesToSet, db))
  ∧ (¬ (update_title input = None ∧ update_completed input = None) →
     (todos db !! update_id input = None →
      updateTodo now input db = (Ok None, db))
     ∧ (∀ r, todos db !! update_id input = Some r →
        ∃ t db',
          updateTodo now input db = (Ok (Some t), db')
          ∧ title t = default (col_title r) (update_title input)
          ∧ completed t = default (col_completed r) (update_completed input)
          ∧ updatedAt t = now
          ∧ id t = update_id input
          ∧ createdAt t = col_created_at r
          ∧ todos db' !! update_id input = Some (to_row t)
          ∧ (∀ j, j ≠ update_id input → todos db' !! j = todos db !! j)
          ∧ size (todos db') = size (todos db)
          ∧ sqlite_sequence db' = sqlite_sequence db)).
Proof.
  intros Hvalid. split.
  - intros [Ht Hc]. by apply updateTodo_no_values.
  - intros Hsome.
    pose proof (updateTodo_some_values now input db Hvalid Hsome) as Hcall.
    cbn zeta in Hcall. split.
    + intros Hk. rewrite Hcall, (alter_missing _ _ _ Hk).
      unfold select_where_id. cbn [todos]. rewrite Hk.
      by destruct db.
    + intros r Hk. rewrite Hcall, (alter_found _ _ _ _ Hk).
      unfold select_where_id. cbn [todos]. rewrite lookup_insert_eq.
      eexists _, _. split; [reflexivity|].
      cbn. repeat split; try done.
      * by rewrite lookup_insert_eq.
      * intros j Hj. by rewrite lookup_insert_ne.
      * rewrite map_size_insert_Some; [done|]. by rewrite Hk.
Qed.

Lemma updateTodo_partial_witness :
  (update_title buy_bread = None ∧ update_completed buy_bread = None →
   updateTodo 1600 buy_bread two_todos = (Throw NoValuesToSet, two_todos))
  ∧ (¬ (update_title buy_bread = None
        ∧ update_completed buy_bread = None) →
     (todos two_todos !! update_id buy_bread = None →
      updateTodo 1600 buy_bread two_todos = (Ok None, two_todos))
     ∧ (∀ r, todos two_todos !! update_id buy_bread = Some r →
        ∃ t db',
          updateTodo 1600 buy_bread two_todos = (Ok (Some t), db')
          ∧ title t = default (col_title r) (update_title buy_bread)
          ∧ completed t
            = default (col_completed r) (update_completed buy_bread)
          ∧ updatedAt t = 1600%N
          ∧ id t = update_id buy_bread
          ∧ createdAt t = col_created_at r
          ∧ todos db' !! update_id buy_bread = Some (to_row t)
          ∧ (∀ j, j ≠ update_id buy_bread →
                  todos db' !! j = todos two_todos !! j)
          ∧ size (todos db') = size (todos two_todos)
          ∧ sqlite_sequence db' = sqlite_sequence two_todos)).
Proof.
  apply (updateTodo_partial 1600 buy_bread two_todos).
  reflexivity.
Defined.

(** C6: the code misses the claim on an update that supplies neither
    field.  The input [{ id: 2 }] is accepted by [updateTodoSchema]
    (both fields are optional) and row 2 exists, last updated at 1002;
    called at reading 2000, [updateTodo] throws instead of returning the
    row with [updatedAt] refreshed, and the row's [updatedAt] is still
    1002.  On the id 9999, which has no row, the same input shape throws
    as well instead of returning [null].  The handler builds the empty
    [updateData] and hands it to [.set(...)] unguarded. *)
Lemma updateTodo_no_fields_throws :
  updateTodoSchema {| update_id := 2; update_title := None;
                      update_completed := None |}
  = Ok {| update_id := 2; update_title := None; update_completed := None |}
  ∧ todos two_todos !! 2 = Some row_B
  ∧ updateTodo 2000 {| update_id := 2; update_title := None;
                       update_completed := None |} two_todos
    = (Throw NoValuesToSet, two_todos)
  ∧ col_updated_at <$>
      todos (updateTodo 2000 {| update_id := 2; update_title := None;
                                update_completed := None |} two_todos).2 !! 2
    = Some 1002%N
  ∧ todos two_todos !! 9999 = None
  ∧ updateTodo 2000 {| update_id := 9999; update_title := None;
                       update_completed := None |} two_todos
    = (Throw NoValuesToSet, two_todos).
Proof. repeat split; vm_compute; reflexivity. Qed.

(** ** A session *)

(** The walk of the specification: the empty store lists nothing; after
    [create] of ["A"] the list has one open Todo titled ["A"]; after its
    toggle the Todo is completed; [deleteCompleted] then counts 1 and
    the list is empty again. *)
Example session :
  let db0 := empty_db in
  let db1 := (createTodo 10 10 {| input_title := "A" |} db0).2 in
  let db2 := (toggleTodo 20 {| input_id := 1 |} db1).2 in
  let db3 := (deleteCompletedTodos db2).2 in
  (getTodos db0).1 = Ok []
  ∧ (getTodos db1).1
    = Ok [ {| id := 1; title := "A"; completed := false;
              createdAt := 10; updatedAt := 10 |} ]
  ∧ (getTodos db2).1
    = Ok [ {| id := 1; title := "A"; completed := true;
              createdAt := 10; updatedAt := 20 |} ]
  ∧ (deleteCompletedTodos db2).1 = Ok {| deletedCount := 1 |}
  ∧ (getTodos db3).1 = Ok [].
Proof. repeat split; vm_compute; reflexivity. Qed.

(** The newest row comes first. *)
Example getTodos_two_todos :
  (getTodos two_todos).1
  = Ok [ {| id := 2; title := "B"; completed := false;
            createdAt := 1002; updatedAt := 1002 |};
         {| id := 1; title := "A"; completed := true;
            createdAt := 1000; updatedAt := 1500 |} ].
Proof. vm_compute. reflexivity. Qed.

(** * Further properties of the server functions *)

(** ** Rejected inputs *)

(** X1: An id that is zero or negative never reaches the store: [toggleTodo]
    and [deleteTodo] throw the [ZodError] of [idSchema] and the store is
    as before, also when a row is stored under that id's absolute value
    or anywhere else. *)
Theorem nonpositive_id_rejected now k db :
  k ≤ 0 →
  toggleTodo now {| input_id := k |} db = (Throw ZodError, db)
  ∧ deleteTodo {| input_id := k |} db = (Throw ZodError, db).
Proof.
  intros Hk.
  assert (idSchema {| input_id := k |} = Throw ZodError) as Hid.
  { unfold idSchema. cbn [input_id].
    by rewrite (proj2 (Z.ltb_ge 0 k) Hk). }
  unfold toggleTodo, deleteTodo, createServerFn. by rewrite Hid.
Qed.

Lemma nonpositive_id_rejected_witness :
  toggleTodo 9 {| input_id := 0 |} two_todos = (Throw ZodError, two_todos)
  ∧ deleteTodo {| input_id := 0 |} two_todos = (Throw ZodError, two_todos).
Proof. apply (nonpositive_id_rejected 9 0 two_todos). lia. Defined.

(** X2: [updateTodo] throws a [ZodError] and leaves the store alone when the
    id is not positive or when a title is supplied that is empty or has
    more than 200 characters, whatever else the input holds and whether
    or not the row exists. *)
Theorem updateTodo_invalid_rejected now input db :
  update_id input ≤ 0
  ∨ (∃ s, update_title input = Some s
          ∧ (String.length s = 0 ∨ 200 < String.length s)%nat) →
  updateTodo now input db = (Throw ZodError, db).
Proof.
  intros Hbad.
  assert (updateTodoSchema input = Throw ZodError) as Hschema.
  { destruct (updateTodoSchema input) as [data|[]] eqn:Hparse; [|done|].
    - assert (data = input) as ->.
      { unfold updateTodoSchema in Hparse.
        destruct (_ && _); by inversion Hparse. }
      apply updateTodoSchema_Ok in Hparse as [Hpos Hlen].
      destruct Hbad as [Hneg|(s & Hs & Hbad)]; [lia|].
      specialize (Hlen s Hs). lia.
    - unfold updateTodoSchema in Hparse. by destruct (_ && _). }
  unfold updateTodo, createServerFn. by rewrite Hschema.
Qed.

Lemma updateTodo_invalid_rejected_witness :
  updateTodo 9 {| update_id := 2; update_title := Some EmptyString;
                  update_completed := Some true |} two_todos
  = (Throw ZodError, two_todos).
Proof.
  apply (updateTodo_invalid_rejected 9
           {| update_id := 2; update_title := Some EmptyString;
              update_completed := Some true |} two_todos).
  right. exists EmptyString. split; [reflexivity | left; reflexivity].
Defined.

(** ** How the calls compose *)

(** X3: On a row that exists, [toggleTodo] is the [updateTodo] that supplies
    only [completed], set to the negation of the stored flag: the same
    result and the same store. *)
Theorem toggleTodo_as_updateTodo now k db r :
  0 < k → todos db !! k = Some r →
  toggleTodo now {| input_id := k |} db
  = updateTodo now {| update_id := k; update_title := None;
                      update_completed := Some (negb (col_completed r)) |} db.
Proof.
  intros Hpos Hk. rewrite (toggleTodo_found now k db r Hpos Hk).
  set (input := {| update_id := k; update_title := None;
                   update_completed := Some (negb (col_completed r)) |}).
  assert (updateTodoSchema input = Ok input) as Hvalid.
  { apply updateTodoSchema_Ok. split; [done|]. by intros s. }
  rewrite (updateTodo_some_values now input db Hvalid)
    by (intros [_ Hc]; discriminate Hc).
  cbn [update_id update_title update_completed input].
  rewrite (alter_found _ _ _ _ Hk).
  unfold select_where_id. cbn [todos]. by rewrite lookup_insert_eq.
Qed.

Lemma toggleTodo_as_updateTodo_witness :
  toggleTodo 1600 {| input_id := 2 |} two_todos
  = updateTodo 1600 {| update_id := 2; update_title := None;
                       update_completed := Some (negb (col_completed row_B)) |}
      two_todos.
Proof.
  apply (toggleTodo_as_updateTodo 1600 2 two_todos row_B);
    [lia | vm_compute; reflexivity].
Defined.

Lemma max_rowid_nonneg (m : gmap Z Row) : 0 ≤ Persistence.max_rowid m.
Proof.
  unfold max_rowid.
  apply (map_fold_weak_ind (λ acc _, 0 ≤ acc)); [done|].
  intros i x m' acc _ IH. lia.
Qed.

Lemma next_rowid_positive db : 0 < next_rowid db.
Proof.
  unfold next_rowid. pose proof (max_rowid_nonneg (todos db)). lia.
Qed.

(** X4: Creating a Todo and deleting it again gives back the rows there were
    before, but not the id: the AUTOINCREMENT counter stays at the
    deleted id, and the next [createTodo] gets a larger one. *)
Theorem createTodo_then_deleteTodo tc tu input db :
  ∃ t db1 db2,
    createTodo tc tu input db = (Ok (Some t), db1)
    ∧ deleteTodo {| input_id := id t |} db1 = (Ok {| success := true |}, db2)
    ∧ todos db2 = todos db
    ∧ sqlite_sequence db < id t
    ∧ sqlite_sequence db2 = id t
    ∧ ∀ tc' tu' input', ∃ t' db3,
        createTodo tc' tu' input' db2 = (Ok (Some t'), db3) ∧ id t < id t'.
Proof.
  eexists _, _, _. split; [apply createTodo_inserts|].
  cbn [id to_todo]. rewrite deleteTodo_valid by apply next_rowid_positive.
  split; [reflexivity|]. unfold delete_where_id. cbn [todos sqlite_sequence].
  split; [|split; [|split]].
  - rewrite delete_insert_eq. apply delete_id, next_rowid_unused.
  - apply next_rowid_above_sequence.
  - done.
  - intros tc' tu' input'. eexists _, _.
    split; [apply createTodo_inserts|]. cbn [id to_todo].
    apply (next_rowid_above_sequence
             {| todos := delete (next_rowid db) (<[next_rowid db :=
                  created_row tc tu (input_title input)]> (todos db));
                sqlite_sequence := next_rowid db |}).
Qed.

(** X5: [deleteCompletedTodos] made twice in a row: the second call finds
    nothing to delete, returns the count 0 and leaves the store as the
    first call left it. *)
Theorem deleteCompletedTodos_twice db :
  ∃ n db1,
    deleteCompletedTodos db = (Ok {| deletedCount := n |}, db1)
    ∧ deleteCompletedTodos db1 = (Ok {| deletedCount := 0 |}, db1).
Proof.
  eexists _, _. split; [reflexivity|].
  unfold deleteCompletedTodos, delete_where_completed_returning.
  cbn [todos sqlite_sequence].
  set (kept := filter (λ kr : Z * Row, col_completed kr.2 = false) (todos db)).
  assert (filter (λ kr : Z * Row, col_completed kr.2 = true) kept = ∅) as ->.
  { apply map_eq; intros k. rewrite lookup_empty. apply eq_None_not_Some.
    intros [r Hr]. apply map_lookup_filter_Some in Hr as [Hr Hdone].
    apply map_lookup_filter_Some in Hr as [_ Hopen]. cbn in *. congruence. }
  assert (filter (λ kr : Z * Row, col_completed kr.2 = false) kept = kept)
    as ->.
  { apply map_eq; intros k. apply option_eq; intros r.
    rewrite map_lookup_filter_Some. unfold kept.
    rewrite map_lookup_filter_Some. cbn. tauto. }
  by rewrite map_to_list_empty.
Qed.

(** ** What the list shows after a call *)

Lemma getTodos_unfold db :
  getTodos db = (Ok (orderBy_desc_createdAt (select_all db)), db).
Proof. reflexivity. Qed.

Lemma to_todo_inj k1 r1 k2 r2 :
  to_todo k1 r1 = to_todo k2 r2 → k1 = k2 ∧ r1 = r2.
Proof. destruct r1, r2. by intros [= -> -> -> -> ->]. Qed.

Lemma NoDup_select_all db : NoDup (select_all db).
Proof.
  unfold select_all. apply NoDup_fmap_2_strong; [|apply NoDup_map_to_list].
  intros [k1 r1] [k2 r2] _ _ Heq. cbn in Heq.
  by destruct (to_todo_inj _ _ _ _ Heq) as [-> ->].
Qed.

Lemma select_all_insert_fresh db k r s :
  todos db !! k = None →
  select_all {| todos := <[k := r]> (todos db); sqlite_sequence := s |}
  ≡ₚ to_todo k r :: select_all db.
Proof.
  intros Hk. unfold select_all. cbn [todos].
  by rewrite (map_to_list_insert _ _ _ Hk).
Qed.

(** X6: Round trip: after [createTodo], [getTodos] returns the Todo that was
    returned, once, together with exactly the Todos it returned before;
    none of those has the new id. *)
Theorem createTodo_then_getTodos tc tu input db :
  ∃ t db' l l',
    createTodo tc tu input db = (Ok (Some t), db')
    ∧ getTodos db = (Ok l, db)
    ∧ getTodos db' = (Ok l', db')
    ∧ l' ≡ₚ t :: l
    ∧ ∀ u, u ∈ l → id u ≠ id t.
Proof.
  eexists _, _, _, _. split; [apply createTodo_inserts|].
  split; [apply getTodos_unfold|]. split; [apply getTodos_unfold|].
  split.
  - rewrite !orderBy_desc_createdAt_perm.
    apply select_all_insert_fresh, next_rowid_unused.
  - intros u Hu Hid. cbn [id to_todo] in Hid.
    rewrite orderBy_desc_createdAt_perm in Hu.
    apply elem_of_select_all in Hu.
    rewrite Hid, next_rowid_unused in Hu. discriminate.
Qed.

(** X7: A Todo created at a reading later than every stored [createdAt] is
    the first element of the next list, followed by the Todos listed
    before. *)
Theorem createTodo_newest_is_first tc tu input db :
  forallb (λ u, (createdAt u <? tc)%N) (select_all db) = true →
  ∃ t db' l rest,
    createTodo tc tu input db = (Ok (Some t), db')
    ∧ getTodos db = (Ok l, db)
    ∧ getTodos db' = (Ok (t :: rest), db')
    ∧ rest ≡ₚ l.
Proof.
  intros Hnewer.
  set (t := to_todo (next_rowid db) (created_row tc tu (input_title input))).
  set (db' := {| todos := <[next_rowid db :=
                   created_row tc tu (input_title input)]> (todos db);
                 sqlite_sequence := next_rowid db |}).
  set (l := orderBy_desc_createdAt (select_all db)).
  remember (orderBy_desc_createdAt (select_all db')) as l' eqn:El'.
  assert (createTodo tc tu input db = (Ok (Some t), db')) as Hcreate
    by apply createTodo_inserts.
  assert (getTodos db = (Ok l, db)) as Hl by apply getTodos_unfold.
  assert (getTodos db' = (Ok l', db')) as Hl'
    by (rewrite El'; apply getTodos_unfold).
  assert (l' ≡ₚ t :: l) as Hperm.
  { subst l' l. rewrite !orderBy_desc_createdAt_perm.
    apply select_all_insert_fresh, next_rowid_unused. }
  assert (∀ u, u ∈ l → (createdAt u < createdAt t)%N) as Holder.
  { intros u Hu. subst l. rewrite orderBy_desc_createdAt_perm in Hu.
    rewrite forallb_forall in Hnewer.
    by apply list_elem_of_In, Hnewer, N.ltb_lt in Hu. }
  assert (StronglySorted newest_first l') as Hsorted
    by (rewrite El'; apply orderBy_desc_createdAt_sorted).
  clearbody l. clear El'. exists t, db', l.
  destruct l' as [|u rest].
  { by apply Permutation_nil_cons in Hperm. }
  assert (u = t) as ->.
  { assert (u ∈ t :: l) as Hu by (rewrite <- Hperm; left).
    apply elem_of_cons in Hu as [->|Hu]; [done|].
    assert (t ∈ u :: rest) as Ht by (rewrite Hperm; left).
    apply elem_of_cons in Ht as [->|Ht]; [done|].
    apply StronglySorted_inv in Hsorted as [_ Hfirst].
    rewrite Forall_forall in Hfirst. specialize (Hfirst t Ht).
    specialize (Holder u Hu). unfold newest_first in Hfirst. lia. }
  exists rest. repeat split; try done.
  by apply Permutation_cons_inv in Hperm.
Qed.

Lemma createTodo_newest_is_first_witness :
  ∃ t db' l rest,
    createTodo 5000 5000 {| input_title := "C" |} two_todos
      = (Ok (Some t), db')
    ∧ getTodos two_todos = (Ok l, two_todos)
    ∧ getTodos db' = (Ok (t :: rest), db')
    ∧ rest ≡ₚ l.
Proof.
  apply (createTodo_newest_is_first 5000 5000 {| input_title := "C" |}
           two_todos).
  vm_compute. reflexivity.
Defined.

(** X8: After [deleteTodo] on a positive id, [getTodos] returns the Todos it
    returned before except the one with that id. *)
Theorem deleteTodo_then_getTodos k db :
  0 < k →
  ∃ db' l l',
    deleteTodo {| input_id := k |} db = (Ok {| success := true |}, db')
    ∧ getTodos db = (Ok l, db)
    ∧ getTodos db' = (Ok l', db')
    ∧ l' ≡ₚ filter (λ t, id t ≠ k) l.
Proof.
  intros Hpos. eexists _, _, _. split; [by apply deleteTodo_valid|].
  split; [apply getTodos_unfold|]. split; [apply getTodos_unfold|].
  rewrite !orderBy_desc_createdAt_perm.
  apply NoDup_Permutation.
  - apply NoDup_select_all.
  - apply NoDup_filter, NoDup_select_all.
  - intros t. rewrite list_elem_of_filter, !elem_of_select_all.
    unfold delete_where_id. cbn [todos].
    rewrite lookup_delete_Some.
    split; (intros [? ?]; split; [congruence | done]).
Qed.

Lemma deleteTodo_then_getTodos_witness :
  ∃ db' l l',
    deleteTodo {| input_id := 1 |} two_todos
      = (Ok {| success := true |}, db')
    ∧ getTodos two_todos = (Ok l, two_todos)
    ∧ getTodos db' = (Ok l', db')
    ∧ l' ≡ₚ filter (λ t, id t ≠ 1) l.
Proof. apply (deleteTodo_then_getTodos 1 two_todos). lia. Defined.

(** X9: No two Todos of a list have the same id, so the ids can serve as the
    keys of the rendered items. *)
Theorem getTodos_ids_distinct db :
  ∃ l, getTodos db = (Ok l, db) ∧ NoDup (id <$> l).
Proof.
  eexists. split; [apply getTodos_unfold|].
  rewrite orderBy_desc_createdAt_perm.
  apply NoDup_fmap_2_strong; [|apply NoDup_select_all].
  intros t u Ht Hu Hid. apply elem_of_select_all in Ht, Hu.
  rewrite Hid, Hu in Ht. injection Ht as Htitle Hdone Hcreated Hupdated.
  destruct t, u. cbn in *. by subst.
Qed.

(** ** Ids over a run *)

Section ids.
Implicit Types (c : Call) (calls : list Call) (db : Db) (k : Z) (r : Row).

(** A row found after a call was there before, or is the one row a
    [createTodo] adds under the next rowid. *)
Lemma exec_key_origin c db k r :
  todos (exec c db) !! k = Some r →
  is_Some (todos db !! k)
  ∨ (k = next_rowid db ∧ sqlite_sequence (exec c db) = next_rowid db).
Proof.
  destruct c as [tc tu input|now input|now input|input|]; cbn [exec].
  - rewrite createTodo_inserts. cbn [snd todos sqlite_sequence]. intros Hk.
    destruct (decide (next_rowid db = k)) as [<-|Hne]; [by right|].
    rewrite lookup_insert_ne in Hk by done. left. by exists r.
  - intros Hk. left.
    destruct (updateTodo_rows _ _ _ _ _ Hk) as [?|(r0 & ? & ? & _)]; eauto.
  - intros Hk. left.
    destruct (toggleTodo_rows _ _ _ _ _ Hk) as [?|(r0 & ? & ? & _)]; eauto.
  - intros Hk. left. apply deleteTodo_rows in Hk. eauto.
  - intros Hk. left. apply deleteCompletedTodos_rows in Hk. eauto.
Qed.

Lemma exec_rowids c db :
  rowids_in_sequence db → rowids_in_sequence (exec c db).
Proof.
  intros [Hseq Hkeys]. pose proof (exec_sequence_mono c db) as Hmono.
  split; [lia|]. intros k r Hk.
  destruct (exec_key_origin _ _ _ _ Hk) as [[r0 H0]|[-> ->]].
  - specialize (Hkeys k r0 H0). lia.
  - pose proof (next_rowid_positive db). lia.
Qed.

Lemma run_rowids calls db :
  rowids_in_sequence db → rowids_in_sequence (run calls db).
Proof.
  revert db. induction calls as [|c calls IH]; intros db Hdb; [done|].
  rewrite run_cons. by apply IH, exec_rowids.
Qed.

Lemma empty_db_rowids : rowids_in_sequence empty_db.
Proof.
  split; [done|]. intros k r Hk. cbn in Hk. by rewrite lookup_empty in Hk.
Qed.

Lemma exec_absent c db k :
  k ≤ sqlite_sequence db → todos db !! k = None →
  todos (exec c db) !! k = None.
Proof.
  intros Hk Hnone.
  destruct (todos (exec c db) !! k) as [r|] eqn:Hafter; [|done].
  destruct (exec_key_origin _ _ _ _ Hafter) as [[r0 H0]|[-> _]].
  - congruence.
  - pose proof (next_rowid_above_sequence db). lia.
Qed.

Lemma run_absent calls db k :
  k ≤ sqlite_sequence db → todos db !! k = None →
  todos (run calls db) !! k = None.
Proof.
  revert db. induction calls as [|c calls IH]; intros db Hk Hnone; [done|].
  rewrite run_cons. apply IH; [|by apply exec_absent].
  pose proof (exec_sequence_mono c db). lia.
Qed.

Lemma created_ids_above calls db :
  Forall (λ i, sqlite_sequence db < i) (created_ids calls db).
Proof.
  revert db. induction calls as [|c calls IH]; intros db; [constructor|].
  cbn [created_ids]. apply Forall_app. split.
  - destruct c as [tc tu input| | | |]; cbn [created_id];
      try apply Forall_nil_2.
    rewrite createTodo_inserts. cbn [fst id to_todo].
    apply Forall_singleton, next_rowid_above_sequence.
  - eapply Forall_impl; [apply IH|]. intros i Hi. cbn in Hi.
    pose proof (exec_sequence_mono c db). lia.
Qed.

Lemma created_ids_sorted calls db :
  StronglySorted Z.lt (created_ids calls db).
Proof.
  revert db. induction calls as [|c calls IH]; intros db; [constructor|].
  cbn [created_ids]. specialize (IH (exec c db)).
  destruct c as [tc tu input| | | |]; cbn [created_id app]; try exact IH.
  rewrite createTodo_inserts. cbn [fst id to_todo app].
  constructor; [exact IH|].
  pose proof (created_ids_above calls
                (exec (CallCreate tc tu input) db)) as Habove.
  cbn [exec] in Habove. rewrite createTodo_inserts in Habove.
  exact Habove.
Qed.
End ids.

(** X10: The ids that the [createTodo] calls of a run return are strictly
    increasing in the order of the calls, on whatever store the run
    starts and whatever else is called in between; each is positive and
    above the AUTOINCREMENT counter the run started with. *)
Theorem created_ids_increasing calls db :
  StronglySorted Z.lt (created_ids calls db)
  ∧ Forall (λ i, 0 < i ∧ sqlite_sequence db < i) (created_ids calls db).
Proof.
  split; [apply created_ids_sorted|].
  apply Forall_and. split; [|apply created_ids_above].
  revert db. induction calls as [|c calls IH]; intros db; [constructor|].
  cbn [created_ids]. apply Forall_app. split; [|apply IH].
  destruct c as [tc tu input| | | |]; cbn [created_id];
    try apply Forall_nil_2.
  rewrite createTodo_inserts. cbn [fst id to_todo].
  apply Forall_singleton, next_rowid_positive.
Qed.

(** X11: In a store reached from the empty one, every Todo that [getTodos]
    lists has a positive id, so the two buttons of its item work:
    [toggleTodo] on that id returns the Todo with [completed] negated and
    the same id, title and [createdAt], and [deleteTodo] removes it. *)
Theorem listed_todo_can_be_toggled calls now t l :
  (getTodos (run calls empty_db)).1 = Ok l → t ∈ l →
  0 < id t
  ∧ (∃ t' db',
       toggleTodo now {| input_id := id t |} (run calls empty_db)
         = (Ok (Some t'), db')
       ∧ id t' = id t ∧ title t' = title t
       ∧ completed t' = negb (completed t)
       ∧ createdAt t' = createdAt t)
  ∧ (∃ db',
       deleteTodo {| input_id := id t |} (run calls empty_db)
         = (Ok {| success := true |}, db')
       ∧ todos db' !! id t = None).
Proof.
  intros Hl Ht. rewrite getTodos_unfold in Hl. injection Hl as <-.
  rewrite orderBy_desc_createdAt_perm in Ht.
  apply elem_of_select_all in Ht.
  destruct (run_rowids calls empty_db empty_db_rowids) as [_ Hkeys].
  destruct (Hkeys _ _ Ht) as [Hpos _].
  split; [done|]. split.
  - eexists _, _. split; [by apply toggleTodo_found|].
    by destruct t.
  - eexists. split; [by apply deleteTodo_valid|].
    apply lookup_delete_eq.
Qed.

Lemma listed_todo_can_be_toggled_witness :
  0 < id (to_todo 2 row_B)
  ∧ (∃ t' db',
       toggleTodo 1600 {| input_id := id (to_todo 2 row_B) |}
         (run [CallCreate 1000 1001 {| input_title := "A" |};
               CallCreate 1002 1002 {| input_title := "B" |}] empty_db)
         = (Ok (Some t'), db')
       ∧ id t' = id (to_todo 2 row_B) ∧ title t' = title (to_todo 2 row_B)
       ∧ completed t' = negb (completed (to_todo 2 row_B))
       ∧ createdAt t' = createdAt (to_todo 2 row_B))
  ∧ (∃ db',
       deleteTodo {| input_id := id (to_todo 2 row_B) |}
         (run [CallCreate 1000 1001 {| input_title := "A" |};
               CallCreate 1002 1002 {| input_title := "B" |}] empty_db)
         = (Ok {| success := true |}, db')
       ∧ todos db' !! id (to_todo 2 row_B) = None).
Proof.
  apply (listed_todo_can_be_toggled
           [CallCreate 1000 1001 {| input_title := "A" |};
            CallCreate 1002 1002 {| input_title := "B" |}]
           1600 (to_todo 2 row_B)
           [to_todo 2 row_B;
            {| id := 1; title := "A"; completed := false;
               createdAt := 1000; updatedAt := 1001 |}]).
  - vm_compute. reflexivity.
  - left.
Defined.

(** X12: Ids are not reused: once [deleteTodo] has removed a row of a store
    reached from the empty one, no later call brings a row back under
    that id, and no later [createTodo] returns it. *)
Theorem deleted_id_never_returns calls1 calls2 k r :
  todos (run calls1 empty_db) !! k = Some r →
  ∃ db',
    deleteTodo {| input_id := k |} (run calls1 empty_db)
      = (Ok {| success := true |}, db')
    ∧ todos (run calls2 db') !! k = None
    ∧ k ∉ created_ids calls2 db'.
Proof.
  intros Hk.
  destruct (run_rowids calls1 empty_db empty_db_rowids) as [_ Hkeys].
  destruct (Hkeys k r Hk) as [Hpos Hseq].
  eexists. split; [by apply deleteTodo_valid|]. split.
  - apply run_absent; [exact Hseq|]. apply lookup_delete_eq.
  - intros Hin.
    pose proof (created_ids_above calls2
                  (delete_where_id k (run calls1 empty_db))) as Habove.
    rewrite Forall_forall in Habove. specialize (Habove k Hin).
    cbn in Habove. lia.
Qed.

Lemma deleted_id_never_returns_witness :
  ∃ db',
    deleteTodo {| input_id := 1 |}
      (run [CallCreate 1000 1001 {| input_title := "A" |}] empty_db)
      = (Ok {| success := true |}, db')
    ∧ todos (run [CallCreate 2000 2000 {| input_title := "B" |}] db') !! 1
      = None
    ∧ 1 ∉ created_ids [CallCreate 2000 2000 {| input_title := "B" |}] db'.
Proof.
  apply (deleted_id_never_returns
           [CallCreate 1000 1001 {| input_title := "A" |}]
           [CallCreate 2000 2000 {| input_title := "B" |}] 1
           {| col_title := "A"; col_completed := false;
              col_created_at := 1000; col_updated_at := 1001 |}).
  vm_compute. reflexivity.
Defined.

(** ** What a run keeps of a row *)

Section rows.
Implicit Types (c : Call) (calls : list Call) (db : Db) (k : Z) (r : Row).

Lemma exec_createdAt c db k r r' :
  todos db !! k = Some r → todos (exec c db) !! k = Some r' →
  col_created_at r' = col_created_at r.
Proof.
  intros Hk.
  destruct c as [tc tu input|now input|now input|input|]; cbn [exec].
  - rewrite createTodo_inserts. cbn [snd todos]. intros Hk'.
    rewrite lookup_insert_ne in Hk'; [congruence|].
    intros Heq. rewrite <- Heq, next_rowid_unused in Hk. discriminate.
  - intros Hk'.
    destruct (updateTodo_rows _ _ _ _ _ Hk') as [?|(r0 & vs & ? & ->)];
      [congruence|].
    cbn. congruence.
  - intros Hk'.
    destruct (toggleTodo_rows _ _ _ _ _ Hk') as [?|(r0 & vs & ? & ->)];
      [congruence|].
    cbn. congruence.
  - intros Hk'. apply deleteTodo_rows in Hk'. congruence.
  - intros Hk'. apply deleteCompletedTodos_rows in Hk'. congruence.
Qed.

Lemma run_createdAt calls db k r r' :
  rowids_in_sequence db →
  todos db !! k = Some r → todos (run calls db) !! k = Some r' →
  col_created_at r' = col_created_at r.
Proof.
  revert db r. induction calls as [|c calls IH]; intros db r Hdb Hk Hk'.
  - cbn in Hk'. congruence.
  - rewrite run_cons in Hk'.
    destruct (todos (exec c db) !! k) as [r1|] eqn:H1.
    + rewrite (IH _ r1 (exec_rowids _ _ Hdb) H1 Hk').
      by eapply exec_createdAt.
    + destruct Hdb as [_ Hkeys]. destruct (Hkeys k r Hk) as [_ Hseq].
      rewrite run_absent in Hk'; [done| |done].
      pose proof (exec_sequence_mono c db). lia.
Qed.

Lemma string_min1_max200_spec (s : string) :
  string_min1_max200 s = true ↔ (1 ≤ String.length s ≤ 200)%nat.
Proof.
  unfold string_min1_max200.
  rewrite andb_true_iff, !Nat.leb_le. tauto.
Qed.

Lemma exec_titles c db :
  (∀ k r, todos db !! k = Some r →
          string_min1_max200 (col_title r) = true) →
  creates_within_bounds [c] →
  ∀ k r, todos (exec c db) !! k = Some r →
         string_min1_max200 (col_title r) = true.
Proof.
  intros Hdb Hc k r.
  destruct c as [tc tu input|now input|now input|input|]; cbn [exec].
  - rewrite createTodo_inserts. cbn [snd todos]. intros Hk.
    destruct (decide (next_rowid db = k)) as [<-|Hne].
    + rewrite lookup_insert_eq in Hk. injection Hk as <-.
      unfold creates_within_bounds in Hc. cbn in Hc.
      by rewrite andb_true_r in Hc.
    + rewrite lookup_insert_ne in Hk by done. by eapply Hdb.
  - unfold updateTodo, createServerFn, updateTodoSchema.
    destruct (0 <? update_id input); cbn [andb]; [|by apply Hdb].
    destruct (from_option _ _ _) eqn:Htitle; [|by apply Hdb].
    unfold update_where_id_returning.
    destruct (mapUpdateSet _) as [vs|e] eqn:Hvs; [|by apply Hdb].
    assert (vs = {| set_title := update_title input;
                    set_completed := update_completed input |}) as ->.
    { unfold mapUpdateSet in Hvs. cbn in Hvs.
      destruct (update_title input), (update_completed input);
        by inversion Hvs. }
    cbn [snd todos]. intros Hk.
    destruct (decide (update_id input = k)) as [<-|Hne].
    + rewrite lookup_alter_eq in Hk.
      destruct (todos db !! update_id input) as [r0|] eqn:H0; [|done].
      injection Hk as <-. cbn.
      destruct (update_title input) as [s|]; cbn in *; [done|].
      by eapply Hdb.
    + rewrite lookup_alter_ne in Hk by done. by eapply Hdb.
  - unfold toggleTodo, createServerFn.
    destruct (idSchema input) as [data|e]; [|by apply Hdb].
    destruct (select_where_id _ _); [by apply Hdb|].
    unfold update_where_id_returning, mapUpdateSet.
    cbn [set_title set_completed snd todos]. intros Hk.
    destruct (decide (input_id data = k)) as [<-|Hne].
    + rewrite lookup_alter_eq in Hk.
      destruct (todos db !! input_id data) as [r0|] eqn:H0; [|done].
      injection Hk as <-. cbn. by eapply Hdb.
    + rewrite lookup_alter_ne in Hk by done. by eapply Hdb.
  - intros Hk. apply deleteTodo_rows in Hk. by eapply Hdb.
  - intros Hk. apply deleteCompletedTodos_rows in Hk. by eapply Hdb.
Qed.
End rows.

(** X13: [createdAt] is set once: as long as a row of a store reached from
    the empty one is there, whatever calls are made, its [createdAt] is
    the one it had. *)
Theorem createdAt_never_changes calls1 calls2 k r r' :
  todos (run calls1 empty_db) !! k = Some r →
  todos (run calls2 (run calls1 empty_db)) !! k = Some r' →
  col_created_at r' = col_created_at r.
Proof.
  intros Hk Hk'. eapply run_createdAt; [|exact Hk|exact Hk'].
  apply run_rowids, empty_db_rowids.
Qed.

Lemma createdAt_never_changes_witness :
  col_created_at {| col_title := "Buy bread"; col_completed := true;
                    col_created_at := 1000; col_updated_at := 4000 |}
  = col_created_at {| col_title := "A"; col_completed := false;
                      col_created_at := 1000; col_updated_at := 1001 |}.
Proof.
  apply (createdAt_never_changes
           [CallCreate 1000 1001 {| input_title := "A" |}]
           [CallToggle 3000 {| input_id := 1 |};
            CallCreate 3500 3500 {| input_title := "B" |};
            CallUpdate 4000 {| update_id := 1;
                               update_title := Some "Buy bread"%string;
                               update_completed := None |}] 1);
    vm_compute; reflexivity.
Defined.

(** X14: Only [createTodo] can bring in a title that
    [z.string().min(1).max(200)] would refuse: in a run from the empty
    store in which every [createTodo] was given a title of 1 to 200
    characters, every stored title has 1 to 200 characters, whatever
    [updateTodo] calls were made. *)
Theorem titles_stay_within_bounds calls k r :
  creates_within_bounds calls →
  todos (run calls empty_db) !! k = Some r →
  (1 ≤ String.length (col_title r) ≤ 200)%nat.
Proof.
  intros Hcalls Hk. apply string_min1_max200_spec.
  revert k r Hk.
  assert (∀ k r, todos empty_db !! k = Some r →
                 string_min1_max200 (col_title r) = true) as Hdb.
  { intros k r Hk. cbn in Hk. by rewrite lookup_empty in Hk. }
  revert Hdb Hcalls. generalize empty_db as db.
  induction calls as [|c calls IH]; intros db Hdb Hcalls; [exact Hdb|].
  rewrite run_cons. unfold creates_within_bounds in Hcalls.
  cbn [forallb] in Hcalls. apply andb_true_iff in Hcalls as [Hc Hrest].
  apply IH; [|exact Hrest].
  apply exec_titles; [exact Hdb|].
  unfold creates_within_bounds. cbn [forallb]. by rewrite Hc.
Qed.

Lemma titles_stay_within_bounds_witness :
  (1 ≤ String.length (col_title {| col_title := "Buy bread";
                                   col_completed := false;
                                   col_created_at := 1000;
                                   col_updated_at := 4000 |}) ≤ 200)%nat.
Proof.
  apply (titles_stay_within_bounds
           [CallCreate 1000 1001 {| input_title := "A" |};
            CallUpdate 3000 {| update_id := 1;
                               update_title := Some EmptyString;
                               update_completed := None |};
            CallUpdate 4000 {| update_id := 1;
                               update_title := Some "Buy bread"%string;
                               update_completed := None |}] 1);
    vm_compute; reflexivity.
Defined.

(** * Properties of the page *)

(** ** [String.prototype.trim] *)

Section trim.
Implicit Types (s : string) (c : ascii).

Lemma trimStart_starts_clean s : starts_clean (Js.trimStart s) = true.
Proof.
  induction s as [|c s IH]; [done|]. cbn.
  destruct (Js.is_white_space c) eqn:Hc; [exact IH|]. cbn. by rewrite Hc.
Qed.

Lemma trimStart_clean s : starts_clean s = true → Js.trimStart s = s.
Proof.
  destruct s as [|c s]; [done|]. cbn.
  by destruct (Js.is_white_space c).
Qed.

Lemma trimEnd_starts_clean s :
  starts_clean s = true → starts_clean (Js.trimEnd s) = true.
Proof.
  destruct s as [|c s]; [done|]. cbn. intros Hc.
  destruct (Js.trimEnd s); cbn; [|done].
  destruct (Js.is_white_space c) eqn:Hws; cbn; [done | by rewrite Hws].
Qed.

Lemma trimEnd_cons c s :
  Js.trimEnd (String c s) =
    match Js.trimEnd s with
    | EmptyString =>
        if Js.is_white_space c then EmptyString else String c EmptyString
    | rest => String c rest
    end.
Proof. reflexivity. Qed.

Lemma trimEnd_idempotent s : Js.trimEnd (Js.trimEnd s) = Js.trimEnd s.
Proof.
  induction s as [|c s IH]; [done|]. rewrite trimEnd_cons.
  destruct (Js.trimEnd s) as [|d e] eqn:He.
  - destruct (Js.is_white_space c) eqn:Hc; [done|].
    rewrite trimEnd_cons. cbn. by rewrite Hc.
  - rewrite trimEnd_cons. by rewrite IH.
Qed.

Lemma trim_idempotent s : Js.trim (Js.trim s) = Js.trim s.
Proof.
  unfold Js.trim.
  rewrite (trimStart_clean (Js.trimEnd (Js.trimStart s))).
  - apply trimEnd_idempotent.
  - apply trimEnd_starts_clean, trimStart_starts_clean.
Qed.
End trim.

(** ** [handleCreate] *)

Lemma not_string_false s : Js.not_string s = false ↔ s ≠ EmptyString.
Proof. by destruct s. Qed.

(** A row found after [handleCreate] was there before or is the one
    open Todo it adds, titled with the trimmed text. *)
Lemma handleCreate_rows tc tu s creating db k r :
  todos (handleCreate tc tu s creating db) !! k = Some r →
  todos db !! k = Some r
  ∨ (todos db !! k = None
     ∧ col_title r = Js.trim s
     ∧ col_title r ≠ EmptyString
     ∧ Js.trim (col_title r) = col_title r
     ∧ col_completed r = false).
Proof.
  unfold handleCreate.
  destruct (Js.not_string (Js.trim s)) eqn:Hblank; cbn [orb]; [by left|].
  destruct creating; [by left|].
  rewrite createTodo_inserts. cbn [snd todos input_title]. intros Hk.
  destruct (decide (next_rowid db = k)) as [<-|Hne].
  - rewrite lookup_insert_eq in Hk. injection Hk as <-. right. cbn.
    split; [apply next_rowid_unused|]. split; [done|].
    split; [by apply not_string_false|].
    split; [apply trim_idempotent | done].
  - rewrite lookup_insert_ne in Hk by done. by left.
Qed.


(** ** The handlers of [TodoPage] *)

Section page.
Import TodoPage.
Implicit Types (p : State) (db : Db) (e : Event) (events : list Event).

Lemma invalidate_reloads p db :
  invalidate p db =
    (Ok {| initialTodos := orderBy_desc_createdAt (select_all db);
           newTodoTitle := newTodoTitle p; isCreating := isCreating p;
           loadingIds := loadingIds p |}, db).
Proof. reflexivity. Qed.

Lemma try_call_returned {A} (call : Db → Result A * Db) p db a db1 :
  call db = (Ok a, db1) →
  try_call_then_invalidate call p db =
    ({| initialTodos := orderBy_desc_createdAt (select_all db1);
        newTodoTitle := newTodoTitle p; isCreating := isCreating p;
        loadingIds := loadingIds p |}, db1).
Proof.
  intros Hcall. unfold try_call_then_invalidate.
  by rewrite Hcall, invalidate_reloads.
Qed.

Lemma try_call_threw {A} (call : Db → Result A * Db) p db err db1 :
  call db = (Throw err, db1) →
  try_call_then_invalidate call p db = (p, db1).
Proof. intros Hcall. unfold try_call_then_invalidate. by rewrite Hcall. Qed.

Lemma try_call_store {A} (call : Db → Result A * Db) p db :
  (try_call_then_invalidate call p db).2 = (call db).2.
Proof.
  destruct (call db) as [[a|err] db1] eqn:Hcall.
  - by rewrite (try_call_returned _ _ _ _ _ Hcall).
  - by rewrite (try_call_threw _ _ _ _ _ Hcall).
Qed.

Lemma try_call_loadingIds {A} (call : Db → Result A * Db) p db :
  loadingIds (try_call_then_invalidate call p db).1 = loadingIds p.
Proof.
  destruct (call db) as [[a|err] db1] eqn:Hcall.
  - by rewrite (try_call_returned _ _ _ _ _ Hcall).
  - by rewrite (try_call_threw _ _ _ _ _ Hcall).
Qed.

(** A call that throws has not touched the store. *)
Lemma toggleTodo_threw now input db err db1 :
  toggleTodo now input db = (Throw err, db1) → db1 = db.
Proof.
  unfold toggleTodo, createServerFn.
  destruct (idSchema input) as [data|e0]; [|by intros [= _ <-]].
  destruct (select_where_id _ _); [done|].
  unfold update_where_id_returning, mapUpdateSet.
  cbn [set_title set_completed]. done.
Qed.

Lemma deleteTodo_threw input db err db1 :
  deleteTodo input db = (Throw err, db1) → db1 = db.
Proof.
  unfold deleteTodo, createServerFn.
  destruct (idSchema input) as [data|e0]; [done|by intros [= _ <-]].
Qed.

Lemma try_call_shows {A} (call : Db → Result A * Db) p db :
  (∀ err db1, call db = (Throw err, db1) → db1 = db) →
  shows_the_store (p, db) →
  shows_the_store (try_call_then_invalidate call p db).
Proof.
  intros Hthrew Hshown.
  destruct (call db) as [[a|err] db1] eqn:Hcall.
  - by rewrite (try_call_returned _ _ _ _ _ Hcall).
  - rewrite (try_call_threw _ _ _ _ _ Hcall).
    by rewrite (Hthrew err db1 eq_refl).
Qed.

Lemma onSubmit_store tc tu p db :
  (onSubmit tc tu p db).2
  = handleCreate tc tu (newTodoTitle p) (isCreating p) db.
Proof.
  unfold onSubmit, handleCreate.
  destruct (Js.not_string _ || isCreating p); [done|].
  by rewrite createTodo_inserts, invalidate_reloads.
Qed.

Lemma handle_shows e p db :
  shows_the_store (p, db) → shows_the_store (handle e (p, db)).
Proof.
  intros Hshown.
  destruct e as [value|tc tu|now i|i|]; cbn [handle fst snd].
  - exact Hshown.
  - unfold onSubmit.
    destruct (Js.not_string _ || isCreating p); [exact Hshown|].
    by rewrite createTodo_inserts, invalidate_reloads.
  - unfold handleToggle.
    set (p1 := setLoadingIds _ p).
    assert (shows_the_store (p1, db)) as H1 by exact Hshown.
    apply (try_call_shows (toggleTodo now {| input_id := i |})) in H1;
      [|intros err db1; apply toggleTodo_threw].
    by destruct (try_call_then_invalidate _ p1 db).
  - unfold handleDelete.
    set (p1 := setLoadingIds _ p).
    assert (shows_the_store (p1, db)) as H1 by exact Hshown.
    apply (try_call_shows (deleteTodo {| input_id := i |})) in H1;
      [|intros err db1; apply deleteTodo_threw].
    by destruct (try_call_then_invalidate _ p1 db).
  - unfold handleDeleteCompleted. by apply try_call_shows.
Qed.
End page.

(** X15: Each handler being run to its end before the next event: a page that
    shows what the store holds keeps doing so through every sequence of
    typing, submits and button clicks, also through the clicks whose
    server call throws, since such a call leaves the store untouched. *)
Theorem page_keeps_showing_the_store events s :
  shows_the_store s → shows_the_store (TodoPage.play events s).
Proof.
  revert s. induction events as [|e events IH]; intros [p db] Hshown;
    [exact Hshown|].
  cbn [TodoPage.play foldl]. apply IH. by apply handle_shows.
Qed.

Lemma page_keeps_showing_the_store_witness :
  shows_the_store
    (TodoPage.play page_session (TodoPage.render [], empty_db)).
Proof.
  apply (page_keeps_showing_the_store page_session
           (TodoPage.render [], empty_db)).
  reflexivity.
Defined.

(** [new Set(prev).add(id)] followed by [next.delete(id)]. *)
Lemma add_then_delete (ids : gset Z) (i : Z) :
  (ids ∪ {[i]}) ∖ {[i]} = ids ∖ {[i]}.
Proof.
  apply set_eq. intros x.
  rewrite !elem_of_difference, elem_of_union, elem_of_singleton. tauto.
Qed.

(** X16: [handleToggle] and [handleDelete] take their id out of [loadingIds]
    and leave the other ids in it, whether the server call returned or
    threw; an id that was loading before is not loading afterwards. *)
Theorem handlers_release_their_id now i p db :
  TodoPage.loadingIds (TodoPage.handleToggle now i p db).1
    = TodoPage.loadingIds p ∖ {[i]}
  ∧ TodoPage.loadingIds (TodoPage.handleDelete i p db).1
    = TodoPage.loadingIds p ∖ {[i]}.
Proof.
  unfold TodoPage.handleToggle, TodoPage.handleDelete. split.
  - pose proof (try_call_loadingIds (toggleTodo now {| input_id := i |})
                  (TodoPage.setLoadingIds (λ prev, prev ∪ {[i]}) p) db)
      as Hids.
    destruct (TodoPage.try_call_then_invalidate _ _ db) as [p2 db2].
    cbn in *. rewrite Hids. apply add_then_delete.
  - pose proof (try_call_loadingIds (deleteTodo {| input_id := i |})
                  (TodoPage.setLoadingIds (λ prev, prev ∪ {[i]}) p) db)
      as Hids.
    destruct (TodoPage.try_call_then_invalidate _ _ db) as [p2 db2].
    cbn in *. rewrite Hids. apply add_then_delete.
Qed.

(** X17: A submit with blank text, or while a creation is under way, changes
    neither the page nor the store.  Otherwise the trimmed text is
    created as a Todo, the input is cleared, [isCreating] is off again,
    and the list is the reloaded one, which contains the new Todo. *)
Theorem onSubmit_effect tc tu p db :
  (Js.trim (TodoPage.newTodoTitle p) = EmptyString
   ∨ TodoPage.isCreating p = true →
   TodoPage.onSubmit tc tu p db = (p, db))
  ∧ (Js.trim (TodoPage.newTodoTitle p) ≠ EmptyString →
     TodoPage.isCreating p = false →
     ∃ t db' l',
       createTodo tc tu
         {| input_title := Js.trim (TodoPage.newTodoTitle p) |} db
         = (Ok (Some t), db')
       ∧ getTodos db' = (Ok l', db')
       ∧ t ∈ l'
       ∧ title t = Js.trim (TodoPage.newTodoTitle p)
       ∧ TodoPage.onSubmit tc tu p db
         = ({| TodoPage.initialTodos := l';
               TodoPage.newTodoTitle := EmptyString;
               TodoPage.isCreating := false;
               TodoPage.loadingIds := TodoPage.loadingIds p |}, db')).
Proof.
  unfold TodoPage.onSubmit. split.
  - intros [Hblank|Hbusy].
    + by rewrite Hblank.
    + by rewrite Hbusy, orb_true_r.
  - intros Htext Hidle. apply not_string_false in Htext.
    rewrite Htext, Hidle. cbn [orb].
    rewrite createTodo_inserts, invalidate_reloads.
    eexists _, _, _. split; [reflexivity|].
    split; [apply getTodos_unfold|]. split; [|done].
    rewrite orderBy_desc_createdAt_perm. apply elem_of_select_all.
    cbn. by rewrite lookup_insert_eq.
Qed.

Section page_store.
Import TodoPage.
Implicit Types (p : State) (db : Db) (e : Event) (k : Z) (r : Row).

Lemma toggleTodo_titles now input db k r :
  todos (toggleTodo now input db).2 !! k = Some r →
  ∃ r0, todos db !! k = Some r0 ∧ col_title r = col_title r0.
Proof.
  unfold toggleTodo, createServerFn.
  destruct (idSchema input) as [data|e0]; [|by eauto].
  destruct (select_where_id _ _); [by eauto|].
  unfold update_where_id_returning, mapUpdateSet.
  cbn [set_title set_completed snd todos]. intros Hk.
  destruct (decide (input_id data = k)) as [<-|Hne].
  - rewrite lookup_alter_eq in Hk.
    destruct (todos db !! input_id data) as [r0|] eqn:H0; [|done].
    injection Hk as <-. by exists r0.
  - rewrite lookup_alter_ne in Hk by done. by exists r.
Qed.

Lemma handle_titles e p db k r :
  todos (handle e (p, db)).2 !! k = Some r →
  (∃ r0, todos db !! k = Some r0 ∧ col_title r = col_title r0)
  ∨ (col_title r ≠ EmptyString ∧ Js.trim (col_title r) = col_title r).
Proof.
  destruct e as [value|tc tu|now i|i|]; cbn [handle fst snd].
  - intros Hk. left. by exists r.
  - rewrite onSubmit_store. intros Hk.
    destruct (handleCreate_rows _ _ _ _ _ _ _ Hk)
      as [Hold|(_ & _ & Hfull & Htrim & _)]; [left; by exists r | by right].
  - unfold handleToggle.
    pose proof (try_call_store (toggleTodo now {| input_id := i |})
                  (setLoadingIds (λ prev, prev ∪ {[i]}) p) db) as Hstore.
    destruct (try_call_then_invalidate _ _ db) as [p2 db2].
    cbn [snd] in *. subst db2. intros Hk. left.
    by apply toggleTodo_titles in Hk.
  - unfold handleDelete.
    pose proof (try_call_store (deleteTodo {| input_id := i |})
                  (setLoadingIds (λ prev, prev ∪ {[i]}) p) db) as Hstore.
    destruct (try_call_then_invalidate _ _ db) as [p2 db2].
    cbn [snd] in *. subst db2. intros Hk. left.
    apply deleteTodo_rows in Hk. by exists r.
  - unfold handleDeleteCompleted. rewrite try_call_store. intros Hk. left.
    apply deleteCompletedTodos_rows in Hk. by exists r.
Qed.
End page_store.

(** X18: Although [createTodo] checks nothing, a store filled through the
    page only, starting empty, never holds an empty title nor one with
    white space at either end: the page trims what it sends, sends
    nothing blank, and calls no function that rewrites a title. *)
Theorem page_titles_trimmed events p k r :
  todos (TodoPage.play events (p, empty_db)).2 !! k = Some r →
  col_title r ≠ EmptyString ∧ Js.trim (col_title r) = col_title r.
Proof.
  assert (∀ j x, todos empty_db !! j = Some x →
            col_title x ≠ EmptyString ∧ Js.trim (col_title x) = col_title x)
    as Hdb.
  { intros j x Hj. cbn in Hj. by rewrite lookup_empty in Hj. }
  revert Hdb k r. generalize empty_db as db. revert p.
  induction events as [|e events IH]; intros p db Hdb k r; [apply Hdb|].
  cbn [TodoPage.play foldl].
  destruct (TodoPage.handle e (p, db)) as [p1 db1] eqn:Hstep.
  apply IH. intros j x Hj.
  assert (todos (TodoPage.handle e (p, db)).2 !! j = Some x) as Hj'
    by (by rewrite Hstep).
  destruct (handle_titles _ _ _ _ _ Hj') as [(x0 & H0 & Htitle)|Hnew];
    [|exact Hnew].
  rewrite Htitle. by eapply Hdb.
Qed.

Lemma page_titles_trimmed_witness :
  col_title {| col_title := "Buy milk"; col_completed := true;
               col_created_at := 1000; col_updated_at := 3000 |}
    ≠ EmptyString
  ∧ Js.trim (col_title {| col_title := "Buy milk"; col_completed := true;
                          col_created_at := 1000; col_updated_at := 3000 |})
    = col_title {| col_title := "Buy milk"; col_completed := true;
                   col_created_at := 1000; col_updated_at := 3000 |}.
Proof.
  apply (page_titles_trimmed page_session (TodoPage.render []) 1).
  vm_compute. reflexivity.
Defined.

(** ** The counters of the card title *)

Lemma count_by_completed (m : gmap Z Row) (b : bool) :
  length (filter (λ t, completed t = b)
            ((λ kr : Z * Row, to_todo kr.1 kr.2) <$> map_to_list m))
  = size (filter (λ kr : Z * Row, col_completed kr.2 = b) m).
Proof.
  induction m as [|k r m Hk IH] using map_ind.
  - by rewrite map_to_list_empty, map_filter_empty, map_size_empty.
  - rewrite (map_to_list_insert _ _ _ Hk). cbn [fmap list_fmap fst snd].
    rewrite filter_cons.
    destruct (decide (completed (to_todo k r) = b)) as [Hb|Hb].
    + rewrite map_filter_insert_True by exact Hb.
      rewrite map_size_insert_None
        by (apply map_lookup_filter_None; by left).
      cbn [length]. by rewrite IH.
    + rewrite map_filter_insert_not' by (by rewrite ?Hk).
      exact IH.
Qed.

Lemma count_completed_listed db (b : bool) :
  length (filter (λ t, completed t = b)
            (orderBy_desc_createdAt (select_all db)))
  = size (filter (λ kr : Z * Row, col_completed kr.2 = b) (todos db)).
Proof.
  rewrite orderBy_desc_createdAt_perm. apply count_by_completed.
Qed.

(** X19: On a page that shows the store, the number that
    [deleteCompletedTodos] reports is the [completedCount] of the card
    title; after [handleDeleteCompleted] the list has [activeCount]
    elements, none of them completed, so the button that clears them is
    gone. *)
Theorem clear_completed_matches_counters p db :
  shows_the_store (p, db) →
  ∃ n p' db',
    deleteCompletedTodos db = (Ok {| deletedCount := n |}, db')
    ∧ TodoPage.handleDeleteCompleted p db = (p', db')
    ∧ n = TodoPage.completedCount p
    ∧ length (TodoPage.initialTodos p') = TodoPage.activeCount p
    ∧ TodoPage.completedCount p' = 0%nat.
Proof.
  intros Hshown. unfold shows_the_store in Hshown. cbn [fst snd] in Hshown.
  rewrite getTodos_unfold in Hshown. injection Hshown as Hlist.
  destruct (deleteCompletedTodos db) as [res db'] eqn:Hcall.
  pose proof Hcall as Hcall'.
  unfold deleteCompletedTodos, delete_where_completed_returning in Hcall'.
  injection Hcall' as <- <-.
  eexists _, _, _. split; [reflexivity|].
  split.
  { unfold TodoPage.handleDeleteCompleted.
    exact (try_call_returned deleteCompletedTodos p db _ _ Hcall). }
  unfold TodoPage.completedCount, TodoPage.activeCount,
    TodoPage.completedCount.
  cbn [TodoPage.initialTodos]. rewrite <- Hlist.
  rewrite !count_completed_listed. cbn [todos].
  rewrite !orderBy_desc_createdAt_perm, !length_select_all. cbn [todos].
  rewrite length_fmap, length_map_to_list.
  split; [done|]. split.
  - rewrite (size_completed_split (todos db)). lia.
  - apply map_size_empty_iff, map_eq. intros k. rewrite lookup_empty.
    apply eq_None_not_Some. intros [r Hr].
    apply map_lookup_filter_Some in Hr as [Hr Hdone].
    apply map_lookup_filter_Some in Hr as [_ Hopen]. cbn in *. congruence.
Qed.

Lemma clear_completed_matches_counters_witness :
  ∃ n p' db',
    deleteCompletedTodos
      (TodoPage.play page_session (TodoPage.render [], empty_db)).2
      = (Ok {| deletedCount := n |}, db')
    ∧ TodoPage.handleDeleteCompleted
        (TodoPage.play page_session (TodoPage.render [], empty_db)).1
        (TodoPage.play page_session (TodoPage.render [], empty_db)).2
      = (p', db')
    ∧ n = TodoPage.completedCount
            (TodoPage.play page_session (TodoPage.render [], empty_db)).1
    ∧ length (TodoPage.initialTodos p')
      = TodoPage.activeCount
          (TodoPage.play page_session (TodoPage.render [], empty_db)).1
    ∧ TodoPage.completedCount p' = 0%nat.
Proof.
  apply (clear_completed_matches_counters
           (TodoPage.play page_session (TodoPage.render [], empty_db)).1
           (TodoPage.play page_session (TodoPage.render [], empty_db)).2).
  vm_compute. reflexivity.
Defined.
